(** * volt/pathutil: repository identifiers and the on-disk layout

    A shallow embedding of [pathutil/pathutil.go] and of the parts of Go's
    [strings], [path/filepath] and [os] packages it calls, followed by the
    properties of the normalizer, of the directory-name codec and of the
    rc-file lookups.

    Go strings are byte sequences: they are lists of [ascii] here; a Go
    string literal ["github.com/"] is written [str "github.com/"], and the
    empty string is [[]]. *)

From Stdlib Require Import String Ascii List Bool Arith ZArith Lia.
From Equations Require Import Equations.
Import ListNotations.
Open Scope list_scope.
Open Scope bool_scope.

(** ** Go strings *)

Definition gostring : Type := list ascii.

Definition str (s : string) : gostring := list_ascii_of_string s.

(** [a == b] on strings. *)
Fixpoint streq (a b : gostring) : bool :=
  match a, b with
  | [], [] => true
  | x :: a', y :: b' => Ascii.eqb x y && streq a' b'
  | _, _ => false
  end.

(** ** Running Go code: a value is returned, or the goroutine panics *)

Inductive panic_value : Type :=
| SliceBoundsOutOfRange            (* runtime error of [s[i:]] *)
| IndexOutOfRange                  (* runtime error of [s[i]] *)
| PanicString (msg : gostring).    (* [panic("...")] *)

Inductive go (A : Type) : Type :=
| Ret (a : A)
| Panic (v : panic_value).

Arguments Ret {A} a.
Arguments Panic {A} v.

Definition bind {A B : Type} (m : go A) (k : A -> go B) : go B :=
  match m with
  | Ret a => k a
  | Panic v => Panic v
  end.

Notation "x <- m ;; k" := (bind m (fun x => k))
  (at level 61, m at next level, right associativity).

(** The [error] interface value, as this package builds it: [nil] or
    [errors.New(msg)]. *)
Inductive error : Type :=
| nil_error
| errors_New (msg : gostring).

(** [s[i:]] on a slice, with the index a Go [int]. *)
Definition slice_from {A : Type} (s : list A) (i : Z) : go (list A) :=
  if (i <? 0)%Z || (Z.of_nat (length s) <? i)%Z
  then Panic SliceBoundsOutOfRange
  else Ret (skipn (Z.to_nat i) s).

(** [s[i]] on a slice. *)
Definition index_at {A : Type} (s : list A) (i : nat) : go A :=
  match nth_error s i with
  | Some a => Ret a
  | None => Panic IndexOutOfRange
  end.

(** ** Package [strings] *)

Module strings.

(** [HasPrefix]: [len(s) >= len(prefix) && s[:len(prefix)] == prefix]. *)
Definition HasPrefix (s prefix : gostring) : bool :=
  (length prefix <=? length s) && streq (firstn (length prefix) s) prefix.

(** [HasSuffix]: [len(s) >= len(suffix) && s[len(s)-len(suffix):] == suffix]. *)
Definition HasSuffix (s suffix : gostring) : bool :=
  (length suffix <=? length s)
  && streq (skipn (length s - length suffix) s) suffix.

(** [TrimSuffix]: one occurrence of the suffix is removed, if present. *)
Definition TrimSuffix (s suffix : gostring) : gostring :=
  if HasSuffix s suffix then firstn (length s - length suffix) s else s.

(** [Contains(s, substr)]: [substr] starts at some position of [s]. *)
Fixpoint Contains (s substr : gostring) : bool :=
  HasPrefix s substr
  || match s with
     | [] => false
     | _ :: s' => Contains s' substr
     end.

(** [Split(s, sep)] for a one-byte separator, the only use in this
    package ([sep] is ["/"]): the pieces between the separators, one
    more than there are separators. *)
Fixpoint Split (s : gostring) (sep : ascii) : list gostring :=
  match s with
  | [] => [[]]
  | c :: s' =>
      if Ascii.eqb c sep then [] :: Split s' sep
      else match Split s' sep with
           | [] => [[c]]
           | seg :: segs => (c :: seg) :: segs
           end
  end.

(** [Join(elems, sep)]. *)
Fixpoint Join (elems : list gostring) (sep : gostring) : gostring :=
  match elems with
  | [] => []
  | [e] => e
  | e :: rest => e ++ sep ++ Join rest sep
  end.

(** [NewReplacer(old1, new1, old2, new2, ...).Replace] when every [old]
    is a single byte (Go's byte replacer): each byte of the input is
    looked up once, the first pair that names it wins, and replacements
    are not scanned again. *)
Fixpoint lookup_byte (c : ascii) (oldnew : list (ascii * gostring)) : gostring :=
  match oldnew with
  | [] => [c]
  | (old, new) :: rest => if Ascii.eqb c old then new else lookup_byte c rest
  end.

Definition ReplaceBytes (oldnew : list (ascii * gostring)) (s : gostring) : gostring :=
  flat_map (fun c => lookup_byte c oldnew) s.

(** [NewReplacer(old, new).Replace] for one non-empty [old] (Go's
    single-string replacer): occurrences are found from left to right
    and do not overlap.  [skip] counts the bytes of a match still to be
    dropped. *)
Fixpoint replace_from (old new : gostring) (skip : nat) (s : gostring) : gostring :=
  match s with
  | [] => []
  | c :: s' =>
      match skip with
      | S k => replace_from old new k s'
      | O =>
          if HasPrefix s old
          then new ++ replace_from old new (length old - 1) s'
          else c :: replace_from old new 0 s'
      end
  end.

Definition ReplaceString (old new : gostring) (s : gostring) : gostring :=
  replace_from old new 0 s.

(** [Replace(s, old, new, -1)] for one-byte [old] and [new]. *)
Definition ReplaceByte (s : gostring) (old new : ascii) : gostring :=
  map (fun c => if Ascii.eqb c old then new else c) s.

End strings.

(** ** The platform: [runtime.GOOS] and the per-platform half of [path/filepath] *)

(** [filepath.Join] and [filepath.Base] are compiled from a different file on
    each platform (volume names and two separators on Windows); a platform
    supplies them.  The Unix versions are defined below. *)
Record Platform : Type := {
  GOOS : gostring;
  filepath_Join : list gostring -> gostring;
  filepath_Base : gostring -> gostring
}.

Module filepath.

(** [filepath.Separator]: ['\\'] on Windows, ['/'] elsewhere. *)
Definition Separator (P : Platform) : ascii :=
  if streq (GOOS P) (str "windows") then "\"%char else "/"%char.

(** [ToSlash]: separators become slashes. *)
Definition ToSlash (P : Platform) (path : gostring) : gostring :=
  if Ascii.eqb (Separator P) "/" then path
  else strings.ReplaceByte path (Separator P) "/".

Definition Join (P : Platform) (elem : list gostring) : gostring :=
  filepath_Join P elem.

Definition Base (P : Platform) (path : gostring) : gostring :=
  filepath_Base P path.

(** *** The Unix build of the package

    [Clean] works on the path elements, the pieces between slashes.  Its
    output buffer is kept here as the list of elements written so far,
    the last one first; [dotdot] is the number of leading elements that a
    later [..] may not remove (the leading [..] elements of a relative
    path), where Go keeps the byte index at which that prefix ends. *)
Record lazybuf : Type := { out : list gostring; dotdot : nat }.

Definition clean_elem (rooted : bool) (b : lazybuf) (e : gostring) : lazybuf :=
  if streq e [] || streq e (str ".") then
    b                                      (* empty element, or [.] *)
  else if streq e (str "..") then
    if dotdot b <? length (out b) then     (* can backtrack *)
      {| out := tl (out b); dotdot := dotdot b |}
    else if negb rooted then               (* keep a leading [..] *)
      {| out := e :: out b; dotdot := S (length (out b)) |}
    else b
  else
    {| out := e :: out b; dotdot := dotdot b |}.   (* real path element *)

Definition unix_Clean (path : gostring) : gostring :=
  if streq path [] then str "."
  else
    let rooted := strings.HasPrefix path (str "/") in
    let b := fold_left (clean_elem rooted) (strings.Split path "/")
                       {| out := []; dotdot := 0 |} in
    let s := (if rooted then str "/" else [])
             ++ strings.Join (rev (out b)) (str "/") in
    if streq s [] then str "." else s.

(** [Join]: the elements from the first non-empty one on, joined by the
    separator and cleaned; the empty string when there is none. *)
Fixpoint unix_Join (elem : list gostring) : gostring :=
  match elem with
  | [] => []
  | e :: rest =>
      if streq e [] then unix_Join rest
      else unix_Clean (strings.Join elem (str "/"))
  end.

Fixpoint drop_separators (s : gostring) : gostring :=
  match s with
  | [] => []
  | c :: s' => if Ascii.eqb c "/" then drop_separators s' else s
  end.

Fixpoint take_element (s : gostring) : gostring :=
  match s with
  | [] => []
  | c :: s' => if Ascii.eqb c "/" then [] else c :: take_element s'
  end.

(** [Base]: trailing slashes are removed, then everything up to the last
    slash; [.] for the empty path and [/] for a path of slashes only. *)
Definition unix_Base (path : gostring) : gostring :=
  if streq path [] then str "."
  else
    let path := rev (take_element (drop_separators (rev path))) in
    if streq path [] then str "/" else path.

End filepath.

(** A Unix platform. *)
Definition unix : Platform :=
  {| GOOS := str "linux";
     filepath_Join := filepath.unix_Join;
     filepath_Base := filepath.unix_Base |}.

(** ** Package [os]: the environment and the file system *)

Module os.

(** [Getenv]: the value of a variable, empty when it is not set. *)
Definition Environ : Type := gostring -> gostring.

Inductive Errno : Type := ENOENT | ENOTDIR | EACCES | ELOOP | ENAMETOOLONG.

(** [Lstat]: [None] when the call succeeds, the error otherwise (the file
    information itself is never used by this package). *)
Definition FileSystem : Type := gostring -> option Errno.

(** [IsNotExist(err)]: the error says that the file does not exist. *)
Definition IsNotExist (err : option Errno) : bool :=
  match err with
  | Some ENOENT => true
  | _ => false
  end.

End os.

(** ** Package [pathutil] *)

Definition ReposPath : Type := gostring.

Section Normalizer.

Variable P : Platform.

(** [func NormalizeRepos(rawReposPath string) (ReposPath, error)] *)
Definition NormalizeRepos (rawReposPath : gostring) : go (ReposPath * error) :=
  let rawReposPath := filepath.ToSlash P rawReposPath in
  let paths := strings.Split rawReposPath "/" in
  if length paths =? 3 then
    Ret (strings.TrimSuffix rawReposPath (str ".git"), nil_error)
  else if length paths =? 2 then
    Ret (strings.TrimSuffix (str "github.com/" ++ rawReposPath) (str ".git"),
         nil_error)
  else
    paths0 <- index_at paths 0 ;;
    if streq paths0 (str "https:") || streq paths0 (str "http:")
       || streq paths0 (str "git:")
    then
      last3 <- slice_from paths (Z.of_nat (length paths) - 3) ;;
      let path := strings.Join last3 (str "/") in
      Ret (strings.TrimSuffix path (str ".git"), nil_error)
    else
      Ret ([], errors_New (str "invalid format of repository: " ++ rawReposPath)).

(** [func (path *ReposPath) String() string] *)
Definition ReposPath_String (path : ReposPath) : gostring := path.

(** [func NormalizeLocalRepos(name string) (ReposPath, error)] *)
Definition NormalizeLocalRepos (name : gostring) : go (ReposPath * error) :=
  if negb (strings.Contains name (str "/")) then
    Ret (str "localhost/local/" ++ name, nil_error)
  else
    NormalizeRepos name.

(** [func CloneURL(reposPath ReposPath) string] *)
Definition CloneURL (reposPath : ReposPath) : gostring :=
  str "https://" ++ filepath.ToSlash P (ReposPath_String reposPath).

End Normalizer.

Section Layout.

Variable P : Platform.
Variable Getenv : os.Environ.
Variable Lstat : os.FileSystem.

(** [func HomeDir() string] *)
Definition HomeDir : go gostring :=
  let home := Getenv (str "HOME") in
  if negb (streq home []) then Ret home
  else
    let home := Getenv (str "USERPROFILE") in
    if negb (streq home []) then Ret home
    else Panic (PanicString (str "Couldn't look up HOME")).

(** [func VimDir() string] *)
Definition VimDir : go gostring :=
  if streq (GOOS P) (str "windows") then
    home <- HomeDir ;; Ret (filepath.Join P [home; str "vimfiles"])
  else
    home <- HomeDir ;; Ret (filepath.Join P [home; str ".vim"]).

(** [func VimVoltOptDir() string] *)
Definition VimVoltOptDir : go gostring :=
  dir <- VimDir ;;
  Ret (filepath.Join P [dir; str "pack"; str "volt"; str "opt"]).

(** [var packer = strings.NewReplacer("_", "__", "/", "_")] *)
Definition packer_Replace : gostring -> gostring :=
  strings.ReplaceBytes [("_"%char, str "__"); ("/"%char, str "_")].

(** [var unpacker1 = strings.NewReplacer("_", "/")] *)
Definition unpacker1_Replace : gostring -> gostring :=
  strings.ReplaceBytes [("_"%char, str "/")].

(** [var unpacker2 = strings.NewReplacer("//", "_")] *)
Definition unpacker2_Replace : gostring -> gostring :=
  strings.ReplaceString (str "//") (str "_").

(** [func EncodeReposPath(reposPath ReposPath) string] *)
Definition EncodeReposPath (reposPath : ReposPath) : go gostring :=
  let path := packer_Replace (ReposPath_String reposPath) in
  dir <- VimVoltOptDir ;;
  Ret (filepath.Join P [dir; path]).

(** [func DecodeReposPath(name string) ReposPath] *)
Definition DecodeReposPath (name : gostring) : ReposPath :=
  let name := filepath.Base P name in
  unpacker2_Replace (unpacker1_Replace name).

(** [func Exists(path string) bool] *)
Definition Exists (path : gostring) : bool :=
  let err := Lstat path in
  negb (os.IsNotExist err).

(** The loop of [LookUpVimrc] and [LookUpGvimrc]:
    [for i := 0; i < len(paths); { if !Exists(paths[i]) { paths =
    append(paths[:i], paths[i+1:]...); continue }; i++ }].
    The test [i < len(paths)] keeps [paths[i]] and both slices in range. *)
Equations? remove_missing (i : nat) (paths : list gostring) : list gostring
  by wf (length paths - i) lt :=
  remove_missing i paths with le_lt_dec (length paths) i => {
    | left _ := paths;
    | right _ with Exists (nth i paths []) => {
        | false := remove_missing i (firstn i paths ++ skipn (S i) paths);
        | true := remove_missing (S i) paths } }.
Proof.
  - lia.
  - change (match paths with [] => [] | _ :: l => skipn i l end)
      with (skipn (S i) paths).
    rewrite length_app, length_firstn, length_skipn. lia.
Qed.

(** [func LookUpVimrc() []string] *)
Definition LookUpVimrc : go (list gostring) :=
  vimrcPaths <-
    (if streq (GOOS P) (str "windows") then
       home <- HomeDir ;;
       dir <- VimDir ;;
       Ret [filepath.Join P [home; str "_vimrc"];
            filepath.Join P [dir; str "vimrc"]]
     else
       home <- HomeDir ;;
       dir <- VimDir ;;
       Ret [filepath.Join P [home; str ".vimrc"];
            filepath.Join P [dir; str "vimrc"]]) ;;
  Ret (remove_missing 0 vimrcPaths).

(** [func LookUpGvimrc() []string] *)
Definition LookUpGvimrc : go (list gostring) :=
  gvimrcPaths <-
    (if streq (GOOS P) (str "windows") then
       home <- HomeDir ;;
       dir <- VimDir ;;
       Ret [filepath.Join P [home; str "_gvimrc"];
            filepath.Join P [dir; str "gvimrc"]]
     else
       home <- HomeDir ;;
       dir <- VimDir ;;
       Ret [filepath.Join P [home; str ".gvimrc"];
            filepath.Join P [dir; str "gvimrc"]]) ;;
  Ret (remove_missing 0 gvimrcPaths).

End Layout.

(** *** The rest of the layout *)

(** [type ReposPathList []ReposPath] *)
Definition ReposPathList : Type := list ReposPath.

(** [func (list ReposPathList) Strings() []string]: the result starts
    empty and gets [string(list[i])] appended for each index [i]. *)
Definition ReposPathList_Strings (l : ReposPathList) : list gostring :=
  let result := [] in
  fold_left (fun result i => result ++ [ReposPath_String (nth i l [])])
            (seq 0 (length l)) result.

Section Paths.

Variable P : Platform.
Variable Getenv : os.Environ.

(** [exec.LookPath]: the search of an executable in [$PATH], which this
    package only calls. *)
Variable LookPath : gostring -> gostring * error.

(** [func VoltPath() string] *)
Definition VoltPath : go gostring :=
  let path := Getenv (str "VOLTPATH") in
  if negb (streq path []) then Ret path
  else home <- HomeDir Getenv ;; Ret (filepath.Join P [home; str "volt"]).

(** [func FullReposPath(reposPath ReposPath) string] *)
Definition FullReposPath (reposPath : ReposPath) : go gostring :=
  let reposList :=
    strings.Split (filepath.ToSlash P (ReposPath_String reposPath)) "/" in
  let paths := [] in
  volt <- VoltPath ;;
  let paths := paths ++ [volt] in
  let paths := paths ++ [str "repos"] in
  let paths := paths ++ reposList in
  Ret (filepath.Join P paths).

(** [func Plugconf(reposPath ReposPath) string] *)
Definition Plugconf (reposPath : ReposPath) : go gostring :=
  let filenameList :=
    strings.Split (filepath.ToSlash P (ReposPath_String reposPath ++ str ".vim"))
                  "/" in
  let paths := [] in
  volt <- VoltPath ;;
  let paths := paths ++ [volt] in
  let paths := paths ++ [str "plugconf"] in
  let paths := paths ++ filenameList in
  Ret (filepath.Join P paths).

(** [func RCDir(profileName string) string] *)
Definition RCDir (profileName : gostring) : go gostring :=
  volt <- VoltPath ;; Ret (filepath.Join P [volt; str "rc"; profileName]).

(** [func LockJSON() string] *)
Definition LockJSON : go gostring :=
  volt <- VoltPath ;; Ret (filepath.Join P [volt; str "lock.json"]).

(** [func ConfigTOML() string] *)
Definition ConfigTOML : go gostring :=
  volt <- VoltPath ;; Ret (filepath.Join P [volt; str "config.toml"]).

(** [func TrxLock() string] *)
Definition TrxLock : go gostring :=
  volt <- VoltPath ;; Ret (filepath.Join P [volt; str "trx.lock"]).

(** [func TempDir() string] *)
Definition TempDir : go gostring :=
  volt <- VoltPath ;; Ret (filepath.Join P [volt; str "tmp"]).

(** [func VimExecutable() (string, error)] *)
Definition VimExecutable : gostring * error :=
  let vim := Getenv (str "VOLT_VIM") in
  if negb (streq vim []) then (vim, nil_error)
  else
    let exeName := str "vim" in
    let exeName :=
      if streq (GOOS P) (str "windows") then str "vim.exe" else exeName in
    LookPath exeName.

(** [func VimVoltDir() string] *)
Definition VimVoltDir : go gostring :=
  dir <- VimDir P Getenv ;; Ret (filepath.Join P [dir; str "pack"; str "volt"]).

(** [func VimVoltStartDir() string] *)
Definition VimVoltStartDir : go gostring :=
  dir <- VimDir P Getenv ;;
  Ret (filepath.Join P [dir; str "pack"; str "volt"; str "start"]).

(** [func BuildInfoJSON() string] *)
Definition BuildInfoJSON : go gostring :=
  dir <- VimVoltDir ;; Ret (filepath.Join P [dir; str "build-info.json"]).

(** [func BundledPlugConf() string] *)
Definition BundledPlugConf : go gostring :=
  dir <- VimVoltStartDir ;;
  Ret (filepath.Join P [dir; str "system"; str "plugin";
                        str "bundled_plugconf.vim"]).

End Paths.

(** ** Vocabulary of the statements *)

(** A string that [filepath.ToSlash] leaves alone: every separator in it is
    a slash. *)
Definition slashed (P : Platform) (s : gostring) : Prop :=
  Forall (fun c => c = filepath.Separator P -> c = "/"%char) s.

(** The scheme tokens [NormalizeRepos] recognises. *)
Definition scheme_tokens : list gostring :=
  [str "https:"; str "http:"; str "git:"].

Definition is_scheme_token (seg : gostring) : bool :=
  streq seg (str "https:") || streq seg (str "http:") || streq seg (str "git:").

(** The number of slash-separated segments of [s] that are scheme tokens. *)
Definition scheme_token_count (s : gostring) : nat :=
  length (filter is_scheme_token (strings.Split s "/")).

(** The shape a canonical identifier is said to have: three or more
    slash-separated segments, no trailing [.git], and no scheme prefix.
    (That the first segment is a host name puts no further condition on a
    string.) *)
Definition canonical_shape (id : gostring) : Prop :=
  3 <= length (strings.Split id "/")
  /\ strings.HasSuffix id (str ".git") = false
  /\ forall tok, In tok scheme_tokens -> strings.HasPrefix id tok = false.

(** The third segment from the end, when there are that many. *)
Definition third_from_last (paths : list gostring) : option gostring :=
  nth_error (rev paths) 2.

(** A path component: it holds no slash and no separator of the platform. *)
Definition component (P : Platform) (x : gostring) : Prop :=
  ~ In "/"%char x /\ ~ In (filepath.Separator P) x.



(** An environment with a home directory, and one without. *)
Definition home_env : os.Environ :=
  fun key => if streq key (str "HOME") then str "/home/volt" else [].

Definition userprofile_env : os.Environ :=
  fun key => if streq key (str "USERPROFILE") then str "C:/Users/volt" else [].

Definition empty_env : os.Environ := fun _ => [].

(** A path is on the disk when [Lstat] finds it.  (An error other than
    [ENOENT] need not mean that the file is there: [ENOTDIR] says that a
    directory of the path is not a directory, so that nothing has this
    path.) *)
Definition on_disk (Lstat : os.FileSystem) (path : gostring) : bool :=
  match Lstat path with
  | None => true
  | Some _ => false
  end.

(** A file system where the home directory is a regular file: it is found,
    and every path below it fails with [ENOTDIR]. *)
Definition home_is_a_file : os.FileSystem :=
  fun path => if streq path (str "/home/volt") then None else Some os.ENOTDIR.

(** A file system where only the [vimrc] of the editor's directory exists. *)
Definition vimrc_only : os.FileSystem :=
  fun path => if streq path (str "/home/volt/.vim/vimrc") then None
              else Some os.ENOENT.

(** A real path element, as [Clean] tells them apart: not empty, not [.],
    not [..], and without slash. *)
Definition real_element (e : gostring) : Prop :=
  e <> [] /\ e <> str "." /\ e <> str ".." /\ ~ In "/"%char e.

(** A platform with the Unix [filepath]. *)
Definition unix_like (P : Platform) : Prop :=
  streq (GOOS P) (str "windows") = false
  /\ filepath_Join P = filepath.unix_Join
  /\ filepath_Base P = filepath.unix_Base.

(** The output buffer of [Clean] once the whole path is read. *)
Definition clean_buffer (path : gostring) : filepath.lazybuf :=
  fold_left (filepath.clean_elem (strings.HasPrefix path (str "/")))
            (strings.Split path "/")
            {| filepath.out := []; filepath.dotdot := 0 |}.

(** A buffer that holds [k] leading [..] elements and then the elements
    [reals]. *)
Definition buffer_of (k : nat) (reals : list gostring) : filepath.lazybuf :=
  {| filepath.out := rev reals ++ repeat (str "..") k; filepath.dotdot := k |}.

(** The text of a list of elements, after the root slash of a rooted path. *)
Definition render (rooted : bool) (elems : list gostring) : gostring :=
  (if rooted then str "/" else []) ++ strings.Join elems (str "/").

(** A directory in cleaned form that is neither the root nor [.]. *)
Definition proper_dir (d : gostring) : Prop :=
  filepath.unix_Clean d = d /\ d <> str "/" /\ d <> str ".".

(** An environment that sets the tool root. *)
Definition voltpath_env : os.Environ :=
  fun key => if streq key (str "VOLTPATH") then str "/opt//volt/" else [].

(** * Properties *)

(** ** Strings *)

Lemma streq_eq (a b : gostring) : streq a b = true <-> a = b.
Proof.
  revert b; induction a as [|x a IH]; intros [|y b]; simpl; split;
    try congruence; try reflexivity.
  - rewrite andb_true_iff, Ascii.eqb_eq, IH. intros [-> ->]. reflexivity.
  - intros [= -> ->]. rewrite Ascii.eqb_refl. simpl. apply IH. reflexivity.
Qed.

Lemma streq_refl (a : gostring) : streq a a = true.
Proof. apply streq_eq. reflexivity. Qed.

Lemma streq_neq (a b : gostring) : streq a b = false <-> a <> b.
Proof.
  rewrite <- streq_eq. destruct (streq a b); split; congruence.
Qed.

Lemma HasSuffix_iff (s suffix : gostring) :
  strings.HasSuffix s suffix = true <-> exists p, s = p ++ suffix.
Proof.
  unfold strings.HasSuffix. rewrite andb_true_iff, Nat.leb_le, streq_eq. split.
  - intros [_ H]. exists (firstn (length s - length suffix) s).
    rewrite <- (firstn_skipn (length s - length suffix) s) at 1.
    f_equal. exact H.
  - intros [p ->]. rewrite length_app. split; [lia|].
    replace (length p + length suffix - length suffix) with (length p) by lia.
    rewrite skipn_app, skipn_all, Nat.sub_diag. reflexivity.
Qed.

Lemma TrimSuffix_app (p suffix : gostring) :
  strings.TrimSuffix (p ++ suffix) suffix = p.
Proof.
  unfold strings.TrimSuffix.
  replace (strings.HasSuffix (p ++ suffix) suffix) with true
    by (symmetry; apply HasSuffix_iff; eauto).
  rewrite length_app, Nat.add_sub, firstn_app, Nat.sub_diag, firstn_all.
  simpl. apply app_nil_r.
Qed.

Lemma TrimSuffix_cases (s suffix : gostring) :
  (strings.HasSuffix s suffix = true /\ s = strings.TrimSuffix s suffix ++ suffix)
  \/ (strings.HasSuffix s suffix = false /\ strings.TrimSuffix s suffix = s).
Proof.
  destruct (strings.HasSuffix s suffix) eqn:E.
  - left. split; [reflexivity|].
    apply HasSuffix_iff in E. destruct E as [p ->].
    rewrite TrimSuffix_app. reflexivity.
  - right. unfold strings.TrimSuffix. rewrite E. auto.
Qed.

Lemma HasPrefix_iff (s prefix : gostring) :
  strings.HasPrefix s prefix = true <-> exists r, s = prefix ++ r.
Proof.
  unfold strings.HasPrefix. rewrite andb_true_iff, Nat.leb_le, streq_eq. split.
  - intros [_ H]. exists (skipn (length prefix) s).
    rewrite <- (firstn_skipn (length prefix) s) at 1.
    f_equal. exact H.
  - intros [r ->]. rewrite length_app. split; [lia|].
    rewrite firstn_app, Nat.sub_diag, firstn_all. simpl. apply app_nil_r.
Qed.

Lemma HasPrefix_app (prefix r : gostring) :
  strings.HasPrefix (prefix ++ r) prefix = true.
Proof. apply HasPrefix_iff. eauto. Qed.

(** [Contains] with a one-byte needle is membership. *)
Lemma Contains_byte (s : gostring) (c : ascii) :
  strings.Contains s [c] = true <-> In c s.
Proof.
  induction s as [|x s IH].
  - simpl. intuition discriminate.
  - cbn [strings.Contains]. rewrite orb_true_iff, IH, HasPrefix_iff. split.
    + intros [[r H]|H]; [left; injection H; auto | right; exact H].
    + intros [->|H]; [left; exists s; reflexivity | right; exact H].
Qed.

Lemma Contains_byte_false (s : gostring) (c : ascii) :
  strings.Contains s [c] = false <-> ~ In c s.
Proof.
  rewrite <- Contains_byte. destruct (strings.Contains s [c]); split; congruence.
Qed.

Lemma TrimSuffix_last_segment (x c suffix : gostring) (sep : ascii) :
  ~ In sep suffix ->
  strings.TrimSuffix (x ++ sep :: c) suffix = x ++ sep :: strings.TrimSuffix c suffix.
Proof.
  intros Hsep.
  destruct (TrimSuffix_cases c suffix) as [[_ E]|[E ->]].
  - rewrite E at 1.
    change (x ++ sep :: strings.TrimSuffix c suffix ++ suffix)
      with (x ++ (sep :: strings.TrimSuffix c suffix) ++ suffix).
    rewrite app_assoc. apply TrimSuffix_app.
  - destruct (TrimSuffix_cases (x ++ sep :: c) suffix) as [[H _]|[_ H]];
      [exfalso | exact H].
    apply HasSuffix_iff in H. destruct H as [q H].
    apply app_eq_app in H. destruct H as [l [[-> H]|[-> H]]].
    + apply Hsep. rewrite H. apply in_or_app. right. left. reflexivity.
    + destruct l as [|y l]; simpl in H.
      * apply Hsep. rewrite <- H. left. reflexivity.
      * injection H as _ H.
        assert (strings.HasSuffix c suffix = true)
          by (apply HasSuffix_iff; eauto).
        congruence.
Qed.

Lemma HasPrefix_first_segment (a rest prefix : gostring) (sep : ascii) :
  ~ In sep prefix ->
  strings.HasPrefix (a ++ sep :: rest) prefix = true ->
  strings.HasPrefix a prefix = true.
Proof.
  intros Hsep H. apply HasPrefix_iff in H. destruct H as [r H].
  apply HasPrefix_iff. symmetry in H.
  apply app_eq_app in H. destruct H as [l [[-> H]|[-> H]]].
  - destruct l as [|y l]; simpl in H.
    + exists []. rewrite !app_nil_r. reflexivity.
    + injection H as <- _. exfalso. apply Hsep.
      apply in_or_app. right. left. reflexivity.
  - eauto.
Qed.

(** ** [Split] and [Join] *)

Section SplitJoin.

Variable sep : ascii.

Lemma Split_not_nil (s : gostring) : strings.Split s sep <> [].
Proof.
  destruct s as [|c s]; simpl; [discriminate|].
  destruct (Ascii.eqb c sep); [discriminate|].
  destruct (strings.Split s sep); discriminate.
Qed.

Lemma Split_app (a b : gostring) :
  strings.Split (a ++ sep :: b) sep = strings.Split a sep ++ strings.Split b sep.
Proof.
  induction a as [|c a IH]; simpl.
  - rewrite Ascii.eqb_refl. reflexivity.
  - destruct (Ascii.eqb c sep); [rewrite IH; reflexivity|].
    rewrite IH. pose proof (Split_not_nil a) as Hne.
    destruct (strings.Split a sep); [congruence | reflexivity].
Qed.

Lemma Split_no_sep (s : gostring) : ~ In sep s -> strings.Split s sep = [s].
Proof.
  induction s as [|c s IH]; simpl; intros H; [reflexivity|].
  destruct (Ascii.eqb_spec c sep) as [->|_]; [tauto|].
  rewrite IH by tauto. reflexivity.
Qed.

(** A piece holds bytes of the input only, and never the separator. *)
Lemma Split_In (s seg : gostring) (c : ascii) :
  In seg (strings.Split s sep) -> In c seg -> In c s /\ c <> sep.
Proof.
  revert seg; induction s as [|x s IH]; simpl; intros seg Hseg Hc.
  - destruct Hseg as [<-|[]]. destruct Hc.
  - destruct (Ascii.eqb_spec x sep) as [->|Hx].
    + destruct Hseg as [<-|Hseg]; [destruct Hc|].
      destruct (IH _ Hseg Hc). auto.
    + pose proof (Split_not_nil s) as Hne.
      destruct (strings.Split s sep) as [|seg0 segs]; [congruence|].
      destruct Hseg as [<-|Hseg].
      * destruct Hc as [<-|Hc]; [auto|].
        destruct (IH seg0 (or_introl eq_refl) Hc). auto.
      * destruct (IH seg (or_intror Hseg) Hc). auto.
Qed.

Lemma Split_segment_no_sep (s seg : gostring) :
  In seg (strings.Split s sep) -> ~ In sep seg.
Proof.
  intros Hseg Hc. destruct (Split_In _ _ _ Hseg Hc) as [_ H]. congruence.
Qed.

Lemma Join_cons (e : gostring) (rest : list gostring) :
  rest <> [] ->
  strings.Join (e :: rest) [sep] = e ++ sep :: strings.Join rest [sep].
Proof. destruct rest; [congruence | reflexivity]. Qed.

Lemma Join_Split (s : gostring) : strings.Join (strings.Split s sep) [sep] = s.
Proof.
  induction s as [|c s IH]; [reflexivity|].
  pose proof (Split_not_nil s) as Hne. cbn [strings.Split].
  destruct (Ascii.eqb_spec c sep) as [->|_].
  - rewrite Join_cons by exact Hne. rewrite IH. reflexivity.
  - destruct (strings.Split s sep) as [|seg [|seg' segs]]; [congruence| |].
    + simpl in *. congruence.
    + rewrite Join_cons in IH by discriminate.
      rewrite Join_cons by discriminate. rewrite <- IH. reflexivity.
Qed.

Lemma Join_app (l1 l2 : list gostring) :
  l1 <> [] -> l2 <> [] ->
  strings.Join (l1 ++ l2) [sep]
  = strings.Join l1 [sep] ++ sep :: strings.Join l2 [sep].
Proof.
  intros H1 H2. induction l1 as [|e l1 IH]; [congruence|].
  destruct l1 as [|e' l1].
  - simpl app. rewrite Join_cons by exact H2. reflexivity.
  - change ((e :: e' :: l1) ++ l2) with (e :: ((e' :: l1) ++ l2)).
    rewrite !Join_cons by discriminate. rewrite IH by discriminate.
    rewrite <- app_assoc. reflexivity.
Qed.

Lemma Split_Join (elems : list gostring) :
  elems <> [] -> Forall (fun e => ~ In sep e) elems ->
  strings.Split (strings.Join elems [sep]) sep = elems.
Proof.
  induction elems as [|e rest IH]; [congruence|]. intros _ H.
  inversion H as [|? ? He Hrest]; subst.
  destruct rest as [|e' rest].
  - simpl. apply Split_no_sep. exact He.
  - rewrite Join_cons by discriminate. rewrite Split_app, IH by (discriminate || exact Hrest).
    rewrite Split_no_sep by exact He. reflexivity.
Qed.

End SplitJoin.

(** ** [ToSlash] *)

Section ToSlash.

Variable P : Platform.

Lemma Separator_cases :
  filepath.Separator P = "/"%char \/ filepath.Separator P = "\"%char.
Proof.
  unfold filepath.Separator. destruct (streq (GOOS P) (str "windows")); auto.
Qed.

Lemma ToSlash_length (s : gostring) : length (filepath.ToSlash P s) = length s.
Proof.
  unfold filepath.ToSlash, strings.ReplaceByte.
  destruct (Ascii.eqb _ _); [reflexivity | apply length_map].
Qed.

Lemma ToSlash_slashed (s : gostring) : slashed P (filepath.ToSlash P s).
Proof.
  unfold slashed, filepath.ToSlash, strings.ReplaceByte.
  destruct (Ascii.eqb_spec (filepath.Separator P) "/") as [E|E].
  - apply Forall_forall. intros c _ ->. exact E.
  - apply Forall_map, Forall_forall. intros c _.
    destruct (Ascii.eqb_spec c (filepath.Separator P)); congruence.
Qed.

Lemma slashed_ToSlash (s : gostring) : slashed P s -> filepath.ToSlash P s = s.
Proof.
  unfold slashed, filepath.ToSlash, strings.ReplaceByte. intros H.
  destruct (Ascii.eqb (filepath.Separator P) "/"); [reflexivity|].
  induction H as [|c s Hc _ IH]; [reflexivity|]. simpl. rewrite IH.
  destruct (Ascii.eqb_spec c (filepath.Separator P)) as [E|_];
    [rewrite <- (Hc E)|]; reflexivity.
Qed.

Lemma slashed_app (a b : gostring) :
  slashed P (a ++ b) <-> slashed P a /\ slashed P b.
Proof. apply Forall_app. Qed.

Lemma slashed_cons (c : ascii) (s : gostring) :
  slashed P (c :: s) <-> (c = filepath.Separator P -> c = "/"%char) /\ slashed P s.
Proof. apply Forall_cons_iff. Qed.

(** A string without backslash is left alone on every platform. *)
Lemma no_backslash_slashed (s : gostring) :
  forallb (fun c => negb (Ascii.eqb c "\")) s = true -> slashed P s.
Proof.
  rewrite forallb_forall. intros H. apply Forall_forall. intros c Hc E.
  specialize (H c Hc). destruct Separator_cases as [F|F]; [congruence|].
  rewrite E, F in H. discriminate.
Qed.

Lemma slashed_firstn (n : nat) (s : gostring) : slashed P s -> slashed P (firstn n s).
Proof.
  intros H. rewrite <- (firstn_skipn n s) in H. apply slashed_app in H. tauto.
Qed.

Lemma slashed_TrimSuffix (s suffix : gostring) :
  slashed P s -> slashed P (strings.TrimSuffix s suffix).
Proof.
  intros H. unfold strings.TrimSuffix.
  destruct (strings.HasSuffix s suffix); [apply slashed_firstn|]; exact H.
Qed.

Lemma slashed_segment (s seg : gostring) :
  slashed P s -> In seg (strings.Split s "/") -> slashed P seg.
Proof.
  intros H Hseg. apply Forall_forall. intros c Hc.
  destruct (Split_In _ _ _ _ Hseg Hc) as [Hin _].
  unfold slashed in H. rewrite Forall_forall in H. auto.
Qed.

(** A string without slash and without separator. *)
Lemma ToSlash_no_sep_Split (s : gostring) :
  ~ In "/"%char s -> ~ In (filepath.Separator P) s ->
  strings.Split (filepath.ToSlash P s) "/" = [s].
Proof.
  intros H1 H2. rewrite slashed_ToSlash.
  - apply Split_no_sep. exact H1.
  - apply Forall_forall. intros c Hc ->. tauto.
Qed.

End ToSlash.

(** ** Slices *)

Lemma slice_from_last3 (A : Type) (l : list A) :
  3 <= length l ->
  slice_from l (Z.of_nat (length l) - 3) = Ret (skipn (length l - 3) l).
Proof.
  intros H. unfold slice_from.
  destruct (Z.ltb_spec (Z.of_nat (length l) - 3) 0); [lia|].
  destruct (Z.ltb_spec (Z.of_nat (length l)) (Z.of_nat (length l) - 3)); [lia|].
  simpl. do 2 f_equal. lia.
Qed.

Lemma slice_from_last3_short (A : Type) (l : list A) :
  length l < 3 ->
  slice_from l (Z.of_nat (length l) - 3) = Panic SliceBoundsOutOfRange.
Proof.
  intros H. unfold slice_from.
  destruct (Z.ltb_spec (Z.of_nat (length l) - 3) 0); [reflexivity | lia].
Qed.

Lemma length3_inv (A : Type) (l : list A) :
  length l = 3 -> exists a b c, l = [a; b; c].
Proof.
  destruct l as [|a [|b [|c [|d l]]]]; simpl; try discriminate. eauto.
Qed.

Lemma length2_inv (A : Type) (l : list A) :
  length l = 2 -> exists a b, l = [a; b].
Proof.
  destruct l as [|a [|b [|c l]]]; simpl; try discriminate. eauto.
Qed.

(** ** The normalizer *)

Section NormalizerFacts.

Variable P : Platform.

Lemma is_scheme_token_In (seg : gostring) :
  is_scheme_token seg = true <-> In seg scheme_tokens.
Proof.
  unfold is_scheme_token, scheme_tokens.
  rewrite !orb_true_iff, !streq_eq. simpl. intuition congruence.
Qed.

Lemma slashed_github : slashed P (str "github.com").
Proof. apply no_backslash_slashed. reflexivity. Qed.

(** What a successful call has computed: the text [a/b/c] of three
    slash-free segments, less one [.git].  The three segments are the
    last three of the input, or the default host and the two segments of
    the input. *)
Lemma NormalizeRepos_Ret (raw : gostring) (id : ReposPath) :
  NormalizeRepos P raw = Ret (id, nil_error) ->
  exists a b c,
    id = strings.TrimSuffix (a ++ "/"%char :: b ++ "/"%char :: c) (str ".git")
    /\ slashed P (a ++ "/"%char :: b ++ "/"%char :: c)
    /\ ~ In "/"%char a /\ ~ In "/"%char b /\ ~ In "/"%char c
    /\ ((a = str "github.com"
         /\ strings.Split (filepath.ToSlash P raw) "/" = [b; c])
        \/ exists pre,
             strings.Split (filepath.ToSlash P raw) "/" = pre ++ [a; b; c]).
Proof.
  unfold NormalizeRepos.
  pose proof (Join_Split "/" (filepath.ToSlash P raw)) as HJ.
  pose proof (ToSlash_slashed P raw) as Hsl.
  pose proof (@Split_segment_no_sep "/" (filepath.ToSlash P raw)) as Hseg.
  pose proof (Split_not_nil "/" (filepath.ToSlash P raw)) as Hne.
  set (r := filepath.ToSlash P raw) in *.
  set (paths := strings.Split r "/") in *.
  destruct (Nat.eqb_spec (length paths) 3) as [E3|N3].
  { intros [= <-]. destruct (length3_inv _ _ E3) as (a & b & c & E).
    rewrite E in HJ, Hseg. simpl in HJ. exists a, b, c.
    rewrite HJ. split; [reflexivity|]. split; [exact Hsl|].
    repeat (split; [apply Hseg; simpl; auto|]).
    right. exists []. exact E. }
  destruct (Nat.eqb_spec (length paths) 2) as [E2|N2].
  { intros [= <-]. destruct (length2_inv _ _ E2) as (b & c & E).
    rewrite E in HJ, Hseg. simpl in HJ. exists (str "github.com"), b, c.
    split; [rewrite HJ; reflexivity|]. split.
    { apply slashed_app. split; [apply slashed_github|].
      apply slashed_cons. split; [auto | rewrite HJ; exact Hsl]. }
    split; [simpl; intuition discriminate|].
    repeat (split; [apply Hseg; simpl; auto|]).
    left. split; [reflexivity | exact E]. }
  destruct paths as [|p0 paths'] eqn:Epaths; [congruence|].
  rewrite <- Epaths in *. unfold index_at. rewrite Epaths at 1. simpl nth_error.
  cbn [bind]. destruct (_ || _); [|discriminate].
  destruct (Nat.lt_ge_cases (length paths) 3) as [Hlt|Hge].
  { rewrite slice_from_last3_short by exact Hlt. discriminate. }
  rewrite slice_from_last3 by exact Hge. cbn [bind]. intros [= <-].
  assert (Hl3 : length (skipn (length paths - 3) paths) = 3)
    by (rewrite length_skipn; lia).
  destruct (length3_inv _ _ Hl3) as (a & b & c & E).
  assert (Hpre : paths = firstn (length paths - 3) paths ++ [a; b; c])
    by (rewrite <- E; symmetry; apply firstn_skipn).
  assert (Hpne : firstn (length paths - 3) paths <> []).
  { intros Hnil. apply (f_equal (@length _)) in Hnil.
    rewrite length_firstn in Hnil. simpl in Hnil. lia. }
  exists a, b, c. rewrite E.
  change (str "/") with ["/"%char]. simpl strings.Join.
  split; [reflexivity|]. split.
  { rewrite Hpre, Join_app in HJ by (exact Hpne || discriminate).
    rewrite <- HJ in Hsl. apply slashed_app in Hsl. destruct Hsl as [_ Hsl].
    apply slashed_cons in Hsl. apply Hsl. }
  repeat (split; [apply Hseg; rewrite Hpre; apply in_or_app; simpl; auto|]).
  right. eexists. exact Hpre.
Qed.

Lemma git_no_slash : ~ In "/"%char (str ".git").
Proof. simpl. intuition discriminate. Qed.

Lemma In_TrimSuffix (x : ascii) (s suffix : gostring) :
  In x (strings.TrimSuffix s suffix) -> In x s.
Proof.
  destruct (TrimSuffix_cases s suffix) as [[_ E]|[_ ->]]; [|auto].
  intros H. rewrite E. apply in_or_app. auto.
Qed.

(** The two accepting shapes, stated on the sliced input. *)
Lemma NormalizeRepos_three (raw : gostring) :
  length (strings.Split (filepath.ToSlash P raw) "/") = 3 ->
  NormalizeRepos P raw
  = Ret (strings.TrimSuffix (filepath.ToSlash P raw) (str ".git"), nil_error).
Proof. intros H. unfold NormalizeRepos. rewrite H. reflexivity. Qed.

Lemma NormalizeRepos_two (raw : gostring) :
  length (strings.Split (filepath.ToSlash P raw) "/") = 2 ->
  NormalizeRepos P raw
  = Ret (strings.TrimSuffix (str "github.com/" ++ filepath.ToSlash P raw)
                            (str ".git"), nil_error).
Proof. intros H. unfold NormalizeRepos. rewrite H. reflexivity. Qed.

(** A normal form is [a/b/c'], three slash-free segments, with [c'] the
    last segment less one [.git]. *)
Lemma NormalizeRepos_Ret_segments (raw : gostring) (id : ReposPath) :
  NormalizeRepos P raw = Ret (id, nil_error) ->
  exists a b c,
    id = a ++ "/"%char :: b ++ "/"%char :: strings.TrimSuffix c (str ".git")
    /\ strings.Split id "/" = [a; b; strings.TrimSuffix c (str ".git")]
    /\ slashed P id
    /\ ((a = str "github.com"
         /\ strings.Split (filepath.ToSlash P raw) "/" = [b; c])
        \/ exists pre,
             strings.Split (filepath.ToSlash P raw) "/" = pre ++ [a; b; c]).
Proof.
  intros H. apply NormalizeRepos_Ret in H.
  destruct H as (a & b & c & Hid & Hsl & Ha & Hb & Hc & Horigin).
  exists a, b, c.
  assert (E : id = a ++ "/"%char :: b ++ "/"%char
                     :: strings.TrimSuffix c (str ".git")).
  { rewrite Hid.
    change (a ++ "/"%char :: b ++ "/"%char :: c)
      with (a ++ ("/"%char :: b) ++ "/"%char :: c).
    rewrite app_assoc, TrimSuffix_last_segment by apply git_no_slash.
    rewrite <- app_assoc. reflexivity. }
  split; [exact E|]. split; [|split; [|exact Horigin]].
  - rewrite E, !Split_app, !Split_no_sep; auto.
    intros Hin. apply Hc. eapply In_TrimSuffix. exact Hin.
  - rewrite Hid. apply slashed_TrimSuffix. exact Hsl.
Qed.

Lemma Join_snoc (l : list gostring) (c : gostring) (sep : ascii) :
  exists x, strings.Join (l ++ [c]) [sep] = x ++ c.
Proof.
  destruct l as [|e l].
  - exists []. reflexivity.
  - rewrite Join_app by discriminate.
    exists (strings.Join (e :: l) [sep] ++ [sep]).
    rewrite <- app_assoc. reflexivity.
Qed.

Lemma HasSuffix_last_segment (x c suffix : gostring) (sep : ascii) :
  ~ In sep suffix ->
  strings.HasSuffix (x ++ sep :: c) suffix = true ->
  strings.HasSuffix c suffix = true.
Proof.
  intros Hsep H. apply HasSuffix_iff in H. destruct H as [q H].
  apply HasSuffix_iff.
  apply app_eq_app in H. destruct H as [l [[-> H]|[-> H]]].
  - exfalso. apply Hsep. rewrite H. apply in_or_app. right. left. reflexivity.
  - destruct l as [|y l]; simpl in H.
    + exfalso. apply Hsep. rewrite <- H. left. reflexivity.
    + injection H as _ H. eauto.
Qed.

(** A string without separator of any platform is sliced as it is. *)
Lemma ToSlash_literal (s : gostring) :
  forallb (fun c => negb (Ascii.eqb c "\")) s = true ->
  filepath.ToSlash P s = s.
Proof. intros H. apply slashed_ToSlash, no_backslash_slashed, H. Qed.

End NormalizerFacts.

Ltac normalize_literal :=
  unfold NormalizeRepos; cbv zeta;
  rewrite ToSlash_literal by reflexivity; reflexivity.

(** ** The claims on the normalizer *)

(** C1.  [NormalizeRepos] is not total: on an input that is exactly a scheme
    token ([https:], [http:] or [git:]) the slice [paths[len(paths)-3:]] is
    out of range, and the call panics instead of returning a result or the
    invalid-format error. *)
Theorem NormalizeRepos_scheme_token_panics (P : Platform) :
  NormalizeRepos P (str "https:") = Panic SliceBoundsOutOfRange
  /\ NormalizeRepos P (str "http:") = Panic SliceBoundsOutOfRange
  /\ NormalizeRepos P (str "git:") = Panic SliceBoundsOutOfRange.
Proof. repeat split; normalize_literal. Qed.

(** The three scheme tokens are the only inputs on which it panics: every
    other input gets an identifier or the invalid-format error. *)
Lemma NormalizeRepos_panics_only_on_scheme_token (P : Platform)
    (raw : gostring) (v : panic_value) :
  NormalizeRepos P raw = Panic v ->
  In raw scheme_tokens /\ v = SliceBoundsOutOfRange.
Proof.
  unfold NormalizeRepos.
  pose proof (Join_Split "/" (filepath.ToSlash P raw)) as HJ.
  pose proof (@Split_segment_no_sep "/" (filepath.ToSlash P raw)) as Hseg.
  pose proof (Split_not_nil "/" (filepath.ToSlash P raw)) as Hne.
  set (paths := strings.Split (filepath.ToSlash P raw) "/") in *.
  destruct (Nat.eqb_spec (length paths) 3) as [E3|N3]; [discriminate|].
  destruct (Nat.eqb_spec (length paths) 2) as [E2|N2]; [discriminate|].
  destruct paths as [|p0 [|p1 rest]] eqn:Epaths.
  - congruence.
  - cbn [index_at nth_error bind].
    fold (is_scheme_token p0). destruct (is_scheme_token p0) eqn:Htok;
      [|discriminate].
    rewrite slice_from_last3_short by (simpl; lia). intros [= <-].
    split; [|reflexivity]. apply is_scheme_token_In in Htok.
    cbn [strings.Join] in HJ. rewrite HJ in Htok.
    assert (Hsl : slashed P raw).
    { apply Forall_forall. intros c Hc Hsep.
      destruct (Ascii.eqb_spec (filepath.Separator P) "/") as [E|E]; [congruence|].
      exfalso. apply (Hseg p0 (or_introl eq_refl)). rewrite HJ.
      unfold filepath.ToSlash, strings.ReplaceByte.
      apply Ascii.eqb_neq in E. rewrite E.
      apply in_map_iff. exists c. rewrite Hsep, Ascii.eqb_refl.
      split; [reflexivity|]. rewrite <- Hsep. exact Hc. }
    rewrite (slashed_ToSlash _ _ Hsl) in Htok. exact Htok.
  - cbn [index_at nth_error bind]. destruct (_ || _); [|discriminate].
    rewrite slice_from_last3; [discriminate|].
    destruct rest; simpl in *; lia.
Qed.

(** The three outcomes of a call. *)
Lemma NormalizeRepos_outcome (P : Platform) (raw : gostring) :
  (In raw scheme_tokens
   /\ NormalizeRepos P raw = Panic SliceBoundsOutOfRange)
  \/ (exists id, NormalizeRepos P raw = Ret (id, nil_error))
  \/ NormalizeRepos P raw
     = Ret ([], errors_New (str "invalid format of repository: "
                              ++ filepath.ToSlash P raw)).
Proof.
  destruct (NormalizeRepos P raw) as [[id e]|v] eqn:E.
  - right. revert E. unfold NormalizeRepos.
    destruct (_ =? 3); [intros [= <- <-]; left; eauto|].
    destruct (_ =? 2); [intros [= <- <-]; left; eauto|].
    destruct (index_at _ 0); cbn [bind]; [|discriminate].
    destruct (_ || _).
    + destruct (slice_from _ _); cbn [bind]; [|discriminate].
      intros [= <- <-]. left. eauto.
    + intros [= <- <-]. right. reflexivity.
  - left. destruct (NormalizeRepos_panics_only_on_scheme_token _ _ _ E) as [H ->].
    auto.
Qed.

(** C10.  No segment is validated: an input sliced into exactly two or
    exactly three segments is accepted without error, whatever the segments
    hold; ["a/"] gives [github.com/a/] and ["a//b"] is returned as it is, so
    that a successful output can have an empty segment. *)
Theorem NormalizeRepos_accepts_two_or_three_segments (P : Platform) :
  (forall raw,
      length (strings.Split (filepath.ToSlash P raw) "/") = 2
      \/ length (strings.Split (filepath.ToSlash P raw) "/") = 3 ->
      exists id, NormalizeRepos P raw = Ret (id, nil_error))
  /\ NormalizeRepos P (str "a/") = Ret (str "github.com/a/", nil_error)
  /\ NormalizeRepos P (str "a//b") = Ret (str "a//b", nil_error)
  /\ In [] (strings.Split (str "github.com/a/") "/")
  /\ In [] (strings.Split (str "a//b") "/").
Proof.
  split; [|repeat split; try normalize_literal; simpl; auto].
  intros raw [H|H].
  - rewrite NormalizeRepos_two by exact H. eauto.
  - rewrite NormalizeRepos_three by exact H. eauto.
Qed.

Lemma NormalizeRepos_accepts_two_or_three_segments_witness :
  exists id, NormalizeRepos unix (str "owner/name.git") = Ret (id, nil_error).
Proof.
  apply (NormalizeRepos_accepts_two_or_three_segments unix).
  left. reflexivity.
Defined.

(** C7.  [NormalizeLocalRepos] wraps a name without slash as
    [localhost/local/<name>], with no error and no further test; a name
    with a slash gets the result of [NormalizeRepos]. *)
Theorem NormalizeLocalRepos_spec (P : Platform) (name : gostring) :
  (~ In "/"%char name ->
   NormalizeLocalRepos P name = Ret (str "localhost/local/" ++ name, nil_error))
  /\ (In "/"%char name -> NormalizeLocalRepos P name = NormalizeRepos P name)
  /\ NormalizeLocalRepos P (str "myplugin")
     = Ret (str "localhost/local/myplugin", nil_error)
  /\ NormalizeLocalRepos P (str "a/b") = Ret (str "github.com/a/b", nil_error).
Proof.
  unfold NormalizeLocalRepos. change (str "/") with ["/"%char].
  split; [|split; [|split]].
  - intros H. apply Contains_byte_false in H. rewrite H. reflexivity.
  - intros H. apply Contains_byte in H. rewrite H. reflexivity.
  - reflexivity.
  - cbn [negb]. normalize_literal.
Qed.

Lemma NormalizeLocalRepos_spec_witness :
  NormalizeLocalRepos unix (str "vim-plug")
  = Ret (str "localhost/local/vim-plug", nil_error)
  /\ NormalizeLocalRepos unix (str "junegunn/vim-plug")
     = NormalizeRepos unix (str "junegunn/vim-plug").
Proof.
  split.
  - apply (NormalizeLocalRepos_spec unix (str "vim-plug")).
    simpl. intuition discriminate.
  - apply (NormalizeLocalRepos_spec unix (str "junegunn/vim-plug")).
    simpl. auto 10.
Defined.


(** C2, as stated, fails: one [.git] is removed by each call, so an input
    ending in [.git.git] is normalized to an identifier that the next call
    changes again. *)
Lemma NormalizeRepos_not_idempotent :
  ~ (forall (P : Platform) (x : gostring) (id : ReposPath),
        NormalizeRepos P x = Ret (id, nil_error) ->
        NormalizeRepos P id = Ret (id, nil_error)).
Proof.
  intros H.
  specialize (H unix (str "a/b/c.git.git") (str "a/b/c.git") eq_refl).
  vm_compute in H. discriminate.
Qed.

(** C2, amended.  Normalizing a normal form succeeds and removes one more
    trailing [.git]; so [NormalizeRepos] is idempotent on every input whose
    normal form does not end in [.git]. *)
Theorem NormalizeRepos_idempotent_without_git (P : Platform)
    (x : gostring) (id : ReposPath) :
  NormalizeRepos P x = Ret (id, nil_error) ->
  NormalizeRepos P id = Ret (strings.TrimSuffix id (str ".git"), nil_error)
  /\ (strings.HasSuffix id (str ".git") = false ->
      NormalizeRepos P id = Ret (id, nil_error)).
Proof.
  intros H. apply NormalizeRepos_Ret_segments in H.
  destruct H as (a & b & c & _ & Hsplit & Hsl & _).
  assert (E : NormalizeRepos P id
              = Ret (strings.TrimSuffix id (str ".git"), nil_error)).
  { rewrite NormalizeRepos_three; rewrite (slashed_ToSlash _ _ Hsl);
      [reflexivity | rewrite Hsplit; reflexivity]. }
  split; [exact E|]. intros Hno. rewrite E.
  unfold strings.TrimSuffix. rewrite Hno. reflexivity.
Qed.

Lemma NormalizeRepos_idempotent_without_git_witness :
  NormalizeRepos unix (str "github.com/tyru/caw.vim")
  = Ret (str "github.com/tyru/caw.vim", nil_error).
Proof.
  apply (NormalizeRepos_idempotent_without_git unix
           (str "https://github.com/tyru/caw.vim.git")
           (str "github.com/tyru/caw.vim")); reflexivity.
Defined.

(** C3, as stated, fails: a three-segment input is returned as it is, also
    when its first segment is a scheme token. *)
Lemma NormalizeRepos_not_canonical :
  ~ (forall (P : Platform) (raw : gostring) (id : ReposPath),
        NormalizeRepos P raw = Ret (id, nil_error) -> canonical_shape id).
Proof.
  intros H.
  destruct (H unix (str "https:/a/b") (str "https:/a/b") eq_refl)
    as (_ & _ & Hscheme).
  specialize (Hscheme (str "https:") (or_introl eq_refl)).
  vm_compute in Hscheme. discriminate.
Qed.

(** C3, amended.  A normal form has exactly three slash-separated segments.
    It ends in [.git] only when the input ended in [.git.git], and it
    starts with a scheme token only when the third segment from the end of
    the input does. *)
Theorem NormalizeRepos_three_segments (P : Platform)
    (raw : gostring) (id : ReposPath) :
  NormalizeRepos P raw = Ret (id, nil_error) ->
  length (strings.Split id "/") = 3
  /\ (strings.HasSuffix id (str ".git") = true ->
      strings.HasSuffix (filepath.ToSlash P raw) (str ".git.git") = true)
  /\ (forall tok, In tok scheme_tokens ->
        strings.HasPrefix id tok = true ->
        exists seg,
          third_from_last (strings.Split (filepath.ToSlash P raw) "/") = Some seg
          /\ strings.HasPrefix seg tok = true).
Proof.
  intros H. apply NormalizeRepos_Ret_segments in H.
  destruct H as (a & b & c & Hid & Hsplit & _ & Horigin).
  split; [rewrite Hsplit; reflexivity|]. split.
  - intros Hgit. rewrite Hid in Hgit.
    change (a ++ "/"%char :: b ++ "/"%char :: strings.TrimSuffix c (str ".git"))
      with (a ++ ("/"%char :: b) ++ "/"%char :: strings.TrimSuffix c (str ".git"))
      in Hgit.
    rewrite app_assoc in Hgit.
    apply HasSuffix_last_segment in Hgit; [|apply git_no_slash].
    destruct (TrimSuffix_cases c (str ".git")) as [[_ Ec]|[Hc Ec]];
      [|rewrite Ec in Hgit; congruence].
    apply HasSuffix_iff in Hgit. destruct Hgit as [q Hq].
    assert (Hlast : exists x, filepath.ToSlash P raw = x ++ c).
    { rewrite <- (Join_Split "/" (filepath.ToSlash P raw)).
      destruct Horigin as [[_ ->]|[pre ->]].
      - apply (Join_snoc [b]).
      - change [a; b; c] with ([a; b] ++ [c]). rewrite app_assoc.
        apply Join_snoc. }
    destruct Hlast as [x ->]. apply HasSuffix_iff.
    exists (x ++ q). rewrite Ec, Hq, <- !app_assoc. reflexivity.
  - intros tok Htok Hpre. rewrite Hid in Hpre.
    apply HasPrefix_first_segment in Hpre.
    + destruct Horigin as [[-> _]|[pre ->]].
      * exfalso. simpl in Htok.
        destruct Htok as [<-|[<-|[<-|[]]]]; vm_compute in Hpre; discriminate.
      * exists a. split; [|exact Hpre].
        unfold third_from_last. rewrite rev_app_distr. reflexivity.
    + simpl in Htok. destruct Htok as [<-|[<-|[<-|[]]]];
        simpl; intuition discriminate.
Qed.

Lemma NormalizeRepos_three_segments_witness :
  length (strings.Split (str "github.com/tyru/caw.vim") "/") = 3.
Proof.
  apply (NormalizeRepos_three_segments unix
           (str "git://github.com/tyru/caw.vim.git")
           (str "github.com/tyru/caw.vim")).
  reflexivity.
Defined.

(** C5, as stated, fails in its second half: the scheme token that a
    three-segment input starts with is kept, and [CloneURL] puts
    [https://] before it. *)
Lemma CloneURL_scheme_twice :
  ~ (forall (P : Platform) (raw : gostring) (id : ReposPath),
        NormalizeRepos P raw = Ret (id, nil_error) ->
        strings.HasPrefix (CloneURL P id) (str "https://") = true
        /\ scheme_token_count (CloneURL P id) = 1).
Proof.
  intros H.
  destruct (H unix (str "https:/a/b") (str "https:/a/b") eq_refl) as [_ Hcount].
  vm_compute in Hcount. discriminate.
Qed.

(** C5, amended.  [CloneURL] of a normal form is [https://] followed by the
    normal form, unchanged; its scheme tokens are that one and those among
    the segments of the normal form, so there is exactly one if and only if
    no segment of the normal form is a scheme token. *)
Theorem CloneURL_of_normal_form (P : Platform) (raw : gostring) (id : ReposPath) :
  NormalizeRepos P raw = Ret (id, nil_error) ->
  CloneURL P id = str "https://" ++ id
  /\ strings.HasPrefix (CloneURL P id) (str "https://") = true
  /\ scheme_token_count (CloneURL P id) = S (scheme_token_count id)
  /\ (scheme_token_count (CloneURL P id) = 1 <-> scheme_token_count id = 0).
Proof.
  intros H. apply NormalizeRepos_Ret_segments in H.
  destruct H as (a & b & c & _ & _ & Hsl & _).
  assert (E : CloneURL P id = str "https://" ++ id).
  { unfold CloneURL, ReposPath_String. rewrite (slashed_ToSlash _ _ Hsl). reflexivity. }
  assert (Hcount : scheme_token_count (CloneURL P id) = S (scheme_token_count id)).
  { rewrite E. unfold scheme_token_count.
    change (str "https://" ++ id)
      with (str "https:" ++ "/"%char :: [] ++ "/"%char :: id).
    rewrite !Split_app. reflexivity. }
  split; [exact E|]. split; [rewrite E; apply HasPrefix_app|].
  split; [exact Hcount|]. rewrite Hcount. lia.
Qed.

Lemma CloneURL_of_normal_form_witness :
  CloneURL unix (str "github.com/tyru/caw.vim")
  = str "https://" ++ str "github.com/tyru/caw.vim".
Proof.
  apply (CloneURL_of_normal_form unix
           (str "tyru/caw.vim") (str "github.com/tyru/caw.vim")).
  reflexivity.
Defined.

Lemma component_slashed (P : Platform) (x : gostring) :
  component P x -> slashed P x.
Proof.
  intros [_ H]. apply Forall_forall. intros c Hc ->. tauto.
Qed.

(** The URL form with its last segment as it is written: the last three
    segments are kept and one [.git] is removed from the last. *)
Lemma NormalizeRepos_of_url_segments (P : Platform) (scheme host owner last : gostring) :
  In scheme [str "http"; str "https"; str "git"] ->
  component P host -> component P owner -> component P last ->
  NormalizeRepos P (scheme ++ str "://" ++ host ++ str "/" ++ owner ++ str "/" ++ last)
  = Ret (host ++ str "/" ++ owner ++ str "/" ++ strings.TrimSuffix last (str ".git"),
         nil_error).
Proof.
  intros Hscheme Hh Ho Hl.
  assert (Hsl : slashed P (host ++ str "/" ++ owner ++ str "/" ++ last)).
  { apply slashed_app; split; [apply component_slashed, Hh|].
    apply slashed_app; split; [apply no_backslash_slashed; reflexivity|].
    apply slashed_app; split; [apply component_slashed, Ho|].
    apply slashed_app; split; [apply no_backslash_slashed; reflexivity|].
    apply component_slashed, Hl. }
  assert (Hsplit : strings.Split (host ++ str "/" ++ owner ++ str "/" ++ last) "/"
                   = [host; owner; last]).
  { change (host ++ str "/" ++ owner ++ str "/" ++ last)
      with (host ++ "/"%char :: owner ++ "/"%char :: last).
    rewrite !Split_app, !Split_no_sep by (apply Hh || apply Ho || apply Hl).
    reflexivity. }
  assert (Htrim : strings.TrimSuffix (strings.Join [host; owner; last] (str "/"))
                                     (str ".git")
                  = host ++ str "/" ++ owner ++ str "/"
                    ++ strings.TrimSuffix last (str ".git")).
  { change (strings.Join [host; owner; last] (str "/"))
      with (host ++ ("/"%char :: owner) ++ "/"%char :: last).
    rewrite app_assoc, TrimSuffix_last_segment by apply git_no_slash.
    rewrite <- app_assoc. reflexivity. }
  unfold NormalizeRepos. cbv zeta.
  set (id := host ++ str "/" ++ owner ++ str "/" ++ last) in *.
  assert (E : forall tok, forallb (fun c => negb (Ascii.eqb c "\")) tok = true ->
                filepath.ToSlash P (tok ++ "/"%char :: "/"%char :: id)
                = tok ++ "/"%char :: [] ++ "/"%char :: id).
  { intros tok Htok. apply slashed_ToSlash.
    apply slashed_app; split; [apply no_backslash_slashed, Htok|].
    apply slashed_cons; split; [auto|]. apply slashed_cons; split; [auto|exact Hsl]. }
  destruct Hscheme as [<-|[<-|[<-|[]]]].
  - change (str "http" ++ str "://" ++ id)
      with (str "http:" ++ "/"%char :: "/"%char :: id).
    rewrite E by reflexivity. rewrite !Split_app, Hsplit.
    rewrite <- Htrim. reflexivity.
  - change (str "https" ++ str "://" ++ id)
      with (str "https:" ++ "/"%char :: "/"%char :: id).
    rewrite E by reflexivity. rewrite !Split_app, Hsplit.
    rewrite <- Htrim. reflexivity.
  - change (str "git" ++ str "://" ++ id)
      with (str "git:" ++ "/"%char :: "/"%char :: id).
    rewrite E by reflexivity. rewrite !Split_app, Hsplit.
    rewrite <- Htrim. reflexivity.
Qed.

(** C6.  A URL [scheme://host/owner/name], with or without a final [.git],
    is normalized to [host/owner/name]: the last three segments are kept and
    the trailing [.git] is removed.  (Without the final [.git], [name] is the
    last segment as written, which then does not end in [.git].) *)
Theorem NormalizeRepos_url (P : Platform) (scheme host owner name : gostring) :
  In scheme [str "http"; str "https"; str "git"] ->
  component P host -> component P owner -> component P name ->
  NormalizeRepos P (scheme ++ str "://" ++ host ++ str "/" ++ owner ++ str "/"
                           ++ name ++ str ".git")
  = Ret (host ++ str "/" ++ owner ++ str "/" ++ name, nil_error)
  /\ (strings.HasSuffix name (str ".git") = false ->
      NormalizeRepos P (scheme ++ str "://" ++ host ++ str "/" ++ owner ++ str "/"
                               ++ name)
      = Ret (host ++ str "/" ++ owner ++ str "/" ++ name, nil_error)).
Proof.
  intros Hscheme Hh Ho Hn. split.
  - rewrite NormalizeRepos_of_url_segments, TrimSuffix_app; auto.
    destruct Hn as [H1 H2]. split; intros H; apply in_app_or in H;
      destruct H as [H|H]; try tauto.
    + revert H. apply git_no_slash.
    + destruct (Separator_cases P) as [E|E]; rewrite E in H;
        simpl in H; intuition discriminate.
  - intros Hno. rewrite NormalizeRepos_of_url_segments by auto.
    unfold strings.TrimSuffix. rewrite Hno. reflexivity.
Qed.

Lemma NormalizeRepos_url_witness :
  NormalizeRepos unix (str "https://github.com/tyru/caw.vim.git")
  = Ret (str "github.com/tyru/caw.vim", nil_error)
  /\ NormalizeRepos unix (str "git://github.com/tyru/caw.vim")
     = Ret (str "github.com/tyru/caw.vim", nil_error).
Proof.
  split.
  - apply (NormalizeRepos_url unix (str "https") (str "github.com")
             (str "tyru") (str "caw.vim"));
      unfold component; simpl; intuition discriminate.
  - apply (NormalizeRepos_url unix (str "git") (str "github.com")
             (str "tyru") (str "caw.vim"));
      try reflexivity; unfold component; simpl; intuition discriminate.
Defined.

(** ** The home directory *)

(** C8.  [HomeDir] is [$HOME] when that is not empty, else [$USERPROFILE]
    when that is not empty, and else it panics: the failure is not a
    returned error (the function has no error result). *)
Theorem HomeDir_spec (Getenv : os.Environ) :
  (Getenv (str "HOME") <> [] ->
   HomeDir Getenv = Ret (Getenv (str "HOME")))
  /\ (Getenv (str "HOME") = [] -> Getenv (str "USERPROFILE") <> [] ->
      HomeDir Getenv = Ret (Getenv (str "USERPROFILE")))
  /\ (Getenv (str "HOME") = [] -> Getenv (str "USERPROFILE") = [] ->
      HomeDir Getenv = Panic (PanicString (str "Couldn't look up HOME"))).
Proof.
  unfold HomeDir. repeat split.
  - intros H. apply streq_neq in H. rewrite H. reflexivity.
  - intros H1 H2. apply streq_neq in H2. rewrite H1, H2. reflexivity.
  - intros H1 H2. rewrite H1, H2. reflexivity.
Qed.

Lemma HomeDir_spec_witness :
  HomeDir home_env = Ret (str "/home/volt")
  /\ HomeDir userprofile_env = Ret (str "C:/Users/volt")
  /\ HomeDir empty_env = Panic (PanicString (str "Couldn't look up HOME")).
Proof.
  split; [|split].
  - apply (HomeDir_spec home_env). discriminate.
  - apply (HomeDir_spec userprofile_env); [reflexivity | discriminate].
  - apply (HomeDir_spec empty_env); reflexivity.
Defined.

(** ** The rc-file lookups *)

Section Lookup.

Variable Lstat : os.FileSystem.

Lemma skipn_nth (A : Type) (d : A) (l : list A) (i : nat) :
  i < length l -> skipn i l = nth i l d :: skipn (S i) l.
Proof.
  revert i; induction l as [|x l IH]; intros [|i] H; simpl in *;
    try lia; [reflexivity|].
  apply IH. lia.
Qed.

Lemma firstn_succ (A : Type) (d : A) (l : list A) (i : nat) :
  i < length l -> firstn (S i) l = firstn i l ++ [nth i l d].
Proof.
  revert i; induction l as [|x l IH]; intros [|i] H; simpl in *;
    try lia; [reflexivity|].
  f_equal. apply IH. lia.
Qed.

(** The loop keeps the first [i] paths and, of the others, those that
    exist, in their order. *)
Lemma remove_missing_filter (i : nat) (paths : list gostring) :
  remove_missing Lstat i paths
  = firstn i paths ++ filter (Exists Lstat) (skipn i paths).
Proof.
  funelim (remove_missing Lstat i paths).
  - rewrite firstn_all2, skipn_all2 by lia. simpl. symmetry. apply app_nil_r.
  - rewrite H. rewrite (skipn_nth gostring [] paths i) by lia.
    rewrite (firstn_succ gostring [] paths i) by lia.
    simpl. rewrite Heq. rewrite <- app_assoc. reflexivity.
  - rewrite H. rewrite (skipn_nth gostring [] paths i) by lia.
    simpl filter. rewrite Heq.
    rewrite firstn_app, skipn_app, length_firstn, Nat.min_l by lia.
    rewrite Nat.sub_diag, firstn_firstn, Nat.min_id. simpl.
    rewrite app_nil_r, skipn_all2 by (rewrite length_firstn; lia).
    reflexivity.
Qed.

End Lookup.



(** Without a home directory the lookups panic as [HomeDir] does. *)
Lemma LookUp_rc_panics (P : Platform) (Getenv : os.Environ)
    (Lstat : os.FileSystem) (v : panic_value) :
  HomeDir Getenv = Panic v ->
  LookUpVimrc P Getenv Lstat = Panic v /\ LookUpGvimrc P Getenv Lstat = Panic v.
Proof.
  intros H. unfold LookUpVimrc, LookUpGvimrc. rewrite H.
  destruct (streq (GOOS P) (str "windows")); split; reflexivity.
Qed.


(** What the lookups return where the home directory is a regular file. *)
Example LookUp_rc_home_is_a_file :
  LookUpVimrc unix home_env home_is_a_file
  = Ret [str "/home/volt/.vimrc"; str "/home/volt/.vim/vimrc"]
  /\ LookUpGvimrc unix home_env home_is_a_file
     = Ret [str "/home/volt/.gvimrc"; str "/home/volt/.vim/gvimrc"]
  /\ on_disk home_is_a_file (str "/home/volt/.vimrc") = false
  /\ on_disk home_is_a_file (str "/home/volt/.vim/vimrc") = false.
Proof. repeat split. Qed.



(** ** [Clean], [Join] and [Base] on Unix *)

Section UnixPaths.

Lemma clean_elem_real (rooted : bool) (b : filepath.lazybuf) (e : gostring) :
  real_element e ->
  filepath.clean_elem rooted b e
  = {| filepath.out := e :: filepath.out b;
       filepath.dotdot := filepath.dotdot b |}.
Proof.
  intros (H1 & H2 & H3 & _). unfold filepath.clean_elem.
  apply streq_neq in H1, H2, H3. rewrite H1, H2, H3. reflexivity.
Qed.

Lemma Join_snoc_sep (l : list gostring) (c : gostring) (sep : ascii) :
  exists x, strings.Join (l ++ [c]) [sep] = x ++ c
            /\ (x = [] \/ exists y, x = y ++ [sep]).
Proof.
  destruct l as [|e l].
  - exists []. auto.
  - rewrite Join_app by discriminate.
    exists (strings.Join (e :: l) [sep] ++ [sep]).
    rewrite <- app_assoc. eauto.
Qed.

(** A path whose last element is a real one is cleaned to a path that
    ends with this element, after a slash or alone. *)
Lemma unix_Clean_last (p : gostring) (elems : list gostring) (name : gostring) :
  strings.Split p "/" = elems ++ [name] ->
  real_element name ->
  exists x, filepath.unix_Clean p = x ++ name
            /\ (x = [] \/ exists y, x = y ++ ["/"%char]).
Proof.
  intros Hsplit Hreal. unfold filepath.unix_Clean.
  destruct (streq p []) eqn:Hp.
  { apply streq_eq in Hp. subst p. destruct elems as [|? [|? ?]]; simpl in Hsplit;
      try discriminate. injection Hsplit as <-. destruct Hreal. congruence. }
  rewrite Hsplit, fold_left_app. simpl fold_left.
  rewrite clean_elem_real by exact Hreal. cbn [filepath.out rev].
  change (str "/") with ["/"%char].
  match goal with
  | |- context [strings.Join (?l ++ [name]) _] =>
      destruct (Join_snoc_sep l name "/") as (x & Hx & Hend)
  end.
  rewrite Hx.
  set (root := if strings.HasPrefix p ["/"%char] then ["/"%char] else []).
  assert (Hne : streq (root ++ x ++ name) [] = false).
  { apply streq_neq. intros E. apply app_eq_nil in E. destruct E as [_ E].
    apply app_eq_nil in E. destruct Hreal. tauto. }
  rewrite Hne. exists (root ++ x). rewrite <- app_assoc. split; [reflexivity|].
  destruct Hend as [->|[y ->]].
  - rewrite app_nil_r. unfold root.
    destruct (strings.HasPrefix p ["/"%char]); [right; exists []|left]; reflexivity.
  - right. exists (root ++ y). rewrite app_assoc. reflexivity.
Qed.

Lemma take_element_app (a rest : gostring) :
  ~ In "/"%char a -> (rest = [] \/ exists r, rest = "/"%char :: r) ->
  filepath.take_element (a ++ rest) = a.
Proof.
  intros Ha Hrest. induction a as [|c a IH]; simpl.
  - destruct Hrest as [->|[r ->]]; [reflexivity|]. simpl. reflexivity.
  - destruct (Ascii.eqb_spec c "/") as [->|_]; [simpl in Ha; tauto|].
    rewrite IH; [reflexivity|]. simpl in Ha. tauto.
Qed.

Lemma unix_Base_last (x name : gostring) :
  real_element name -> (x = [] \/ exists y, x = y ++ ["/"%char]) ->
  filepath.unix_Base (x ++ name) = name.
Proof.
  intros (Hne & _ & _ & Hslash) Hx. unfold filepath.unix_Base.
  assert (E : streq (x ++ name) [] = false).
  { apply streq_neq. intros E. apply app_eq_nil in E. tauto. }
  rewrite E, rev_app_distr.
  assert (Hrev : ~ In "/"%char (rev name)) by (rewrite <- in_rev; exact Hslash).
  assert (Hdrop : filepath.drop_separators (rev name ++ rev x) = rev name ++ rev x).
  { destruct (rev name) as [|z t] eqn:Ez.
    - exfalso. apply Hne. rewrite <- (rev_involutive name), Ez. reflexivity.
    - simpl. destruct (Ascii.eqb_spec z "/") as [->|_]; [simpl in Hrev; tauto|].
      reflexivity. }
  rewrite Hdrop, take_element_app, rev_involutive.
  - apply streq_neq in Hne. rewrite Hne. reflexivity.
  - exact Hrev.
  - destruct Hx as [->|[y ->]]; [left; reflexivity|].
    right. rewrite rev_app_distr. simpl. eauto.
Qed.

(** The base name of a directory joined with a real element is the
    element. *)
Lemma unix_Base_Join (dir name : gostring) :
  real_element name ->
  filepath.unix_Base (filepath.unix_Join [dir; name]) = name.
Proof.
  intros Hreal. pose proof Hreal as (Hne & _ & _ & Hslash).
  assert (H : exists x, filepath.unix_Join [dir; name] = x ++ name
                        /\ (x = [] \/ exists y, x = y ++ ["/"%char])).
  { cbn [filepath.unix_Join]. destruct (streq dir []).
    - apply streq_neq in Hne. rewrite Hne.
      apply (unix_Clean_last name []); [|exact Hreal].
      apply Split_no_sep. exact Hslash.
    - apply (unix_Clean_last _ (strings.Split dir "/")); [|exact Hreal].
      change (strings.Join [dir; name] (str "/")) with (dir ++ "/"%char :: name).
      rewrite Split_app, (Split_no_sep "/" name Hslash). reflexivity. }
  destruct H as (x & -> & Hx). apply unix_Base_last; assumption.
Qed.

End UnixPaths.

(** ** The directory-name codec *)

Section Codec.

(** Without underscore in the identifier, the packer only turns slashes
    into underscores. *)
Lemma packer_no_underscore (id : gostring) :
  ~ In "_"%char id ->
  packer_Replace id = map (fun c => if Ascii.eqb c "/" then "_"%char else c) id.
Proof.
  unfold packer_Replace, strings.ReplaceBytes.
  induction id as [|c id IH]; intros H; [reflexivity|].
  simpl in H. cbn [flat_map map]. rewrite IH by tauto.
  cbn [strings.lookup_byte].
  destruct (Ascii.eqb_spec c "_") as [->|_]; [tauto|].
  destruct (Ascii.eqb c "/"); reflexivity.
Qed.

Lemma unpacker1_packed (id : gostring) :
  ~ In "_"%char id ->
  unpacker1_Replace (map (fun c => if Ascii.eqb c "/" then "_"%char else c) id)
  = id.
Proof.
  unfold unpacker1_Replace, strings.ReplaceBytes.
  induction id as [|c id IH]; intros H; [reflexivity|].
  simpl in H. cbn [flat_map map]. rewrite IH by tauto.
  cbn [strings.lookup_byte].
  destruct (Ascii.eqb_spec c "/") as [->|_]; [reflexivity|].
  destruct (Ascii.eqb_spec c "_") as [->|_]; [tauto | reflexivity].
Qed.

Lemma unpacker2_no_double_slash (s : gostring) :
  strings.Contains s (str "//") = false -> unpacker2_Replace s = s.
Proof.
  unfold unpacker2_Replace, strings.ReplaceString.
  induction s as [|c s IH]; intros H; [reflexivity|].
  cbn [strings.Contains] in H. apply orb_false_iff in H. destruct H as [H1 H2].
  cbn [strings.replace_from]. rewrite H1, IH by exact H2. reflexivity.
Qed.

Lemma packed_real_element (id : gostring) :
  id <> [] -> id <> str "." -> id <> str ".." ->
  real_element (map (fun c => if Ascii.eqb c "/" then "_"%char else c) id).
Proof.
  intros H1 H2 H3. unfold real_element. repeat split.
  - destruct id; [congruence | discriminate].
  - intros E. apply H2. destruct id as [|c [|d id]]; try discriminate.
    injection E as E. destruct (Ascii.eqb_spec c "/"); [discriminate|].
    rewrite E. reflexivity.
  - intros E. apply H3. destruct id as [|c [|d [|e id]]]; try discriminate.
    injection E as Ec Ed.
    destruct (Ascii.eqb_spec c "/"); [discriminate|].
    destruct (Ascii.eqb_spec d "/"); [discriminate|].
    rewrite Ec, Ed. reflexivity.
  - intros Hin. apply in_map_iff in Hin. destruct Hin as (c & E & _).
    destruct (Ascii.eqb_spec c "/"); [discriminate | congruence].
Qed.

End Codec.

(** C4, as stated, fails: an identifier without underscore but with an
    empty segment, such as [a//b], is encoded as [a__b] and decoded as
    [a_b]. *)
Lemma codec_loses_empty_segment :
  ~ (forall (P : Platform) (Getenv : os.Environ) (id : ReposPath) (path : gostring),
        ~ In "_"%char id ->
        EncodeReposPath P Getenv id = Ret path ->
        DecodeReposPath P path = id).
Proof.
  intros H.
  assert (Hno : ~ In "_"%char (str "a//b")) by (simpl; intuition discriminate).
  specialize (H unix home_env (str "a//b")
                (str "/home/volt/.vim/pack/volt/opt/a__b") Hno eq_refl).
  vm_compute in H. discriminate.
Qed.

(** The empty name, [.] and [..] are lost in [filepath.Join]: what is decoded
    is the name of the directory that the join is cleaned to. *)
Example codec_cleaned_names :
  (path <- EncodeReposPath unix home_env [] ;; Ret (DecodeReposPath unix path))
  = Ret (str "opt")
  /\ (path <- EncodeReposPath unix home_env (str ".") ;;
      Ret (DecodeReposPath unix path))
     = Ret (str "opt")
  /\ (path <- EncodeReposPath unix home_env (str "..") ;;
      Ret (DecodeReposPath unix path))
     = Ret (str "volt").
Proof. repeat split. Qed.

(** C4, amended.  Where [filepath] is the Unix one and the home directory
    is resolved, encoding succeeds and decoding the encoded name gives the
    identifier back, for every identifier without underscore and without
    two adjacent slashes that is not empty, [.] or [..]. *)
Theorem codec_round_trip (P : Platform) (Getenv : os.Environ)
    (home : gostring) (id : ReposPath) :
  filepath_Join P = filepath.unix_Join ->
  filepath_Base P = filepath.unix_Base ->
  HomeDir Getenv = Ret home ->
  ~ In "_"%char id ->
  strings.Contains id (str "//") = false ->
  id <> [] -> id <> str "." -> id <> str ".." ->
  exists path,
    EncodeReposPath P Getenv id = Ret path
    /\ DecodeReposPath P path = id.
Proof.
  intros HJoin HBase Hhome Hunder Hdouble H1 H2 H3.
  unfold EncodeReposPath, VimVoltOptDir, VimDir. rewrite Hhome.
  destruct (streq (GOOS P) (str "windows")); cbn [bind];
    (eexists; split; [reflexivity|]);
    unfold DecodeReposPath, filepath.Base, filepath.Join, ReposPath_String;
    rewrite HJoin, HBase;
    (rewrite unix_Base_Join;
     rewrite packer_no_underscore by exact Hunder;
     [|apply packed_real_element; assumption]);
    rewrite unpacker1_packed by exact Hunder;
    apply unpacker2_no_double_slash; exact Hdouble.
Qed.

Lemma codec_round_trip_witness :
  exists path,
    EncodeReposPath unix home_env (str "github.com/tyru/caw.vim") = Ret path
    /\ DecodeReposPath unix path = str "github.com/tyru/caw.vim".
Proof.
  apply (codec_round_trip unix home_env (str "/home/volt")
           (str "github.com/tyru/caw.vim"));
    try reflexivity; try discriminate.
  simpl. intuition discriminate.
Defined.

(** * More of the package *)

(** ** [Clean] on Unix: the shape of its result *)

Section CleanShape.

Lemma real_element_no_slash (e : gostring) : real_element e -> ~ In "/"%char e.
Proof. intros (_ & _ & _ & H). exact H. Qed.

Lemma dotdot_no_slash : ~ In "/"%char (str "..").
Proof. simpl. intuition discriminate. Qed.

(** One element more keeps the buffer in shape: leading [..] elements, only
    in a relative path, then real elements. *)
Lemma clean_elem_buffer (rooted : bool) (k : nat) (reals : list gostring)
    (e : gostring) :
  Forall real_element reals -> (rooted = true -> k = 0) -> ~ In "/"%char e ->
  exists k' reals',
    Forall real_element reals' /\ (rooted = true -> k' = 0)
    /\ filepath.clean_elem rooted (buffer_of k reals) e = buffer_of k' reals'.
Proof.
  intros Hreals Hroot He. unfold filepath.clean_elem.
  destruct (streq e []) eqn:E1; [exists k, reals; auto|].
  destruct (streq e (str ".")) eqn:E2; [exists k, reals; auto|].
  cbn [orb]. destruct (streq e (str "..")) eqn:E3.
  - cbn [buffer_of filepath.out filepath.dotdot].
    rewrite length_app, length_rev, repeat_length.
    destruct reals as [|r0 rs] using rev_ind.
    + replace (k <? length (@nil gostring) + k) with false
        by (symmetry; apply Nat.ltb_ge; simpl; lia).
      destruct rooted; cbn [negb].
      * exists k, []. auto.
      * exists (S k), []. split; [constructor|]. split; [discriminate|].
        apply streq_eq in E3. subst e. reflexivity.
    + replace (k <? length (rs ++ [r0]) + k) with true
        by (symmetry; apply Nat.ltb_lt; rewrite length_app; simpl; lia).
      exists k, rs. apply Forall_app in Hreals. destruct Hreals as [Hrs _].
      split; [exact Hrs|]. split; [exact Hroot|].
      unfold buffer_of. rewrite rev_app_distr. reflexivity.
  - exists k, (reals ++ [e]). split; [|split; [exact Hroot|]].
    + apply Forall_app. split; [exact Hreals|]. constructor; [|constructor].
      apply streq_neq in E1, E2, E3. repeat split; assumption.
    + unfold buffer_of. cbn [filepath.out filepath.dotdot].
      rewrite rev_app_distr. reflexivity.
Qed.

Lemma fold_clean_buffer (rooted : bool) (elems : list gostring) :
  Forall (fun e => ~ In "/"%char e) elems ->
  forall (k : nat) (reals : list gostring),
    Forall real_element reals -> (rooted = true -> k = 0) ->
    exists k' reals',
      Forall real_element reals' /\ (rooted = true -> k' = 0)
      /\ fold_left (filepath.clean_elem rooted) elems (buffer_of k reals)
         = buffer_of k' reals'.
Proof.
  induction 1 as [|e elems He _ IH]; intros k reals Hreals Hroot.
  - exists k, reals. auto.
  - destruct (clean_elem_buffer rooted k reals e Hreals Hroot He)
      as (k1 & reals1 & H1 & Hroot1 & E).
    cbn [fold_left]. rewrite E. apply IH; assumption.
Qed.

Lemma clean_buffer_shape (path : gostring) :
  exists k reals,
    Forall real_element reals
    /\ (strings.HasPrefix path (str "/") = true -> k = 0)
    /\ clean_buffer path = buffer_of k reals.
Proof.
  unfold clean_buffer.
  apply (fold_clean_buffer (strings.HasPrefix path (str "/"))
           (strings.Split path "/")) with (k := 0) (reals := []); auto.
  apply Forall_forall. intros seg Hseg. eapply Split_segment_no_sep. exact Hseg.
Qed.

Lemma rev_out_buffer_of (k : nat) (reals : list gostring) :
  rev (filepath.out (buffer_of k reals)) = repeat (str "..") k ++ reals.
Proof.
  unfold buffer_of. cbn [filepath.out].
  rewrite rev_app_distr, rev_involutive, rev_repeat. reflexivity.
Qed.

(** [Clean] in terms of the buffer. *)
Lemma unix_Clean_buffer (path : gostring) :
  path <> [] ->
  filepath.unix_Clean path
  = let s := render (strings.HasPrefix path (str "/"))
                    (rev (filepath.out (clean_buffer path))) in
    if streq s [] then str "." else s.
Proof.
  intros H. unfold filepath.unix_Clean. apply streq_neq in H. rewrite H.
  reflexivity.
Qed.

(** Real elements are written one after the other. *)
Lemma fold_real_elements (rooted : bool) (reals : list gostring) :
  Forall real_element reals ->
  forall b,
    fold_left (filepath.clean_elem rooted) reals b
    = {| filepath.out := rev reals ++ filepath.out b;
         filepath.dotdot := filepath.dotdot b |}.
Proof.
  induction 1 as [|e reals He _ IH]; intros b.
  - destruct b. reflexivity.
  - cbn [fold_left]. rewrite clean_elem_real by exact He. rewrite IH.
    cbn [filepath.out filepath.dotdot rev]. rewrite <- app_assoc. reflexivity.
Qed.

(** Leading [..] elements of a relative path are kept. *)
Lemma fold_dotdots (k j : nat) :
  fold_left (filepath.clean_elem false) (repeat (str "..") k) (buffer_of j [])
  = buffer_of (j + k) [].
Proof.
  revert j; induction k as [|k IH]; intros j.
  - rewrite Nat.add_0_r. reflexivity.
  - cbn [repeat fold_left].
    replace (filepath.clean_elem false (buffer_of j []) (str ".."))
      with (buffer_of (S j) []).
    + rewrite IH. f_equal. lia.
    + unfold filepath.clean_elem, buffer_of.
      cbn [filepath.out filepath.dotdot rev app streq orb].
      change (streq (str "..") []) with false.
      change (streq (str "..") (str ".")) with false.
      change (streq (str "..") (str "..")) with true.
      cbn [orb]. rewrite repeat_length, Nat.ltb_irrefl. reflexivity.
Qed.

End CleanShape.

(** ** [Clean] and [Join] on Unix: cleaned paths and what is joined to them *)

Section CleanJoin.

Lemma HasPrefix_slash_cons (c : ascii) (s : gostring) :
  strings.HasPrefix (c :: s) (str "/") = Ascii.eqb c "/".
Proof.
  unfold strings.HasPrefix. simpl. rewrite andb_true_r. reflexivity.
Qed.

Lemma Join_not_nil (e : gostring) (rest : list gostring) :
  e <> [] -> strings.Join (e :: rest) ["/"%char] <> [].
Proof.
  intros He. destruct rest; simpl; [exact He|].
  intros E. apply app_eq_nil in E. tauto.
Qed.

Lemma dotdots_and_reals (k : nat) (reals : list gostring) :
  Forall real_element reals ->
  Forall (fun e => e <> [] /\ ~ In "/"%char e) (repeat (str "..") k ++ reals).
Proof.
  intros H. apply Forall_app. split.
  - apply Forall_forall. intros e He. apply repeat_spec in He. subst e.
    split; [discriminate | apply dotdot_no_slash].
  - eapply Forall_impl; [|exact H]. intros e (H1 & _ & _ & H4). auto.
Qed.

(** The text of a buffer in shape is cleaned to itself. *)
Lemma unix_Clean_render (rooted : bool) (k : nat) (reals : list gostring) :
  Forall real_element reals -> (rooted = true -> k = 0) ->
  render rooted (repeat (str "..") k ++ reals) <> [] ->
  filepath.unix_Clean (render rooted (repeat (str "..") k ++ reals))
  = render rooted (repeat (str "..") k ++ reals).
Proof.
  intros Hreals Hroot Hne.
  pose proof (dotdots_and_reals k reals Hreals) as Hok.
  set (l := repeat (str "..") k ++ reals) in *.
  assert (Hslash : Forall (fun e => ~ In "/"%char e) l)
    by (eapply Forall_impl; [|exact Hok]; intros e [_ H]; exact H).
  assert (Hbuf : strings.HasPrefix (render rooted l) (str "/") = rooted
                 /\ clean_buffer (render rooted l) = buffer_of k reals).
  { unfold clean_buffer, render in *. change (str "/") with ["/"%char] in *.
    destruct rooted.
    - assert (Ek : k = 0) by auto. subst k l. cbn [repeat app] in *.
      change ("/"%char :: strings.Join reals ["/"%char])
        with ([] ++ "/"%char :: strings.Join reals ["/"%char]).
      split; [reflexivity|]. rewrite Split_app.
      destruct reals as [|r0 rs]; [reflexivity|].
      rewrite Split_Join by (discriminate || exact Hslash).
      rewrite fold_left_app.
      change (fold_left (filepath.clean_elem true) (strings.Split [] "/")
                {| filepath.out := []; filepath.dotdot := 0 |})
        with {| filepath.out := []; filepath.dotdot := 0 |}.
      rewrite fold_real_elements by exact Hreals.
      unfold buffer_of. cbn [filepath.out filepath.dotdot repeat].
      reflexivity.
    - cbn [app] in *. destruct l as [|e0 rest] eqn:El; [simpl in Hne; congruence|].
      assert (Hpre : strings.HasPrefix (strings.Join (e0 :: rest) ["/"%char])
                                       ["/"%char] = false).
      { inversion Hok as [|? ? [He0 Hs0] _]; subst.
        destruct e0 as [|c e0]; [congruence|].
        assert (Hc : c <> "/"%char) by (intros ->; apply Hs0; left; reflexivity).
        apply Ascii.eqb_neq in Hc.
        destruct rest; simpl; apply (eq_trans (HasPrefix_slash_cons c _)), Hc. }
      split; [exact Hpre|]. rewrite Hpre.
      rewrite Split_Join by (discriminate || exact Hslash).
      rewrite <- El. unfold l. rewrite fold_left_app.
      change {| filepath.out := []; filepath.dotdot := 0 |} with (buffer_of 0 []).
      rewrite (fold_dotdots k 0), fold_real_elements by exact Hreals.
      reflexivity. }
  destruct Hbuf as [Hpre Hbuf].
  rewrite unix_Clean_buffer by exact Hne. cbv zeta.
  rewrite Hpre, Hbuf, rev_out_buffer_of. fold l.
  apply streq_neq in Hne. rewrite Hne. reflexivity.
Qed.

(** [Clean] is idempotent. *)
Lemma unix_Clean_idempotent (path : gostring) :
  filepath.unix_Clean (filepath.unix_Clean path) = filepath.unix_Clean path.
Proof.
  destruct path as [|c path]; [reflexivity|].
  rewrite (unix_Clean_buffer (c :: path)) by discriminate. cbv zeta.
  destruct (clean_buffer_shape (c :: path)) as (k & reals & Hreals & Hroot & ->).
  rewrite rev_out_buffer_of.
  destruct (streq _ []) eqn:E; [reflexivity|].
  apply streq_neq in E. apply unix_Clean_render; assumption.
Qed.

(** Real elements joined to a directory come after its cleaned form. *)
Lemma unix_Clean_under (d : gostring) (elems : list gostring) :
  d <> [] -> Forall real_element elems -> elems <> [] ->
  filepath.unix_Clean d <> str "/" -> filepath.unix_Clean d <> str "." ->
  filepath.unix_Clean (d ++ "/"%char :: strings.Join elems ["/"%char])
  = filepath.unix_Clean d ++ "/"%char :: strings.Join elems ["/"%char].
Proof.
  intros Hd Helems Hne Hroot Hdot.
  destruct (clean_buffer_shape d) as (k & reals & Hreals & Hk & Hbuf).
  pose proof (dotdots_and_reals k reals Hreals) as Hok.
  pose proof (unix_Clean_buffer d Hd) as Eclean. cbv zeta in Eclean.
  rewrite Hbuf, rev_out_buffer_of in Eclean.
  set (l := repeat (str "..") k ++ reals) in *.
  set (rooted := strings.HasPrefix d (str "/")) in *.
  assert (Hl : l <> []).
  { intros El. rewrite El in Eclean.
    destruct rooted; [apply Hroot | apply Hdot]; rewrite Eclean; reflexivity. }
  assert (Hrender : render rooted l <> []).
  { unfold render. intros E. apply app_eq_nil in E. destruct E as [_ E].
    destruct l as [|e0 rest]; [congruence|].
    inversion Hok as [|? ? [He0 _] _]; subst.
    revert E. apply Join_not_nil. exact He0. }
  assert (Hcd : filepath.unix_Clean d = render rooted l).
  { rewrite Eclean. apply streq_neq in Hrender. rewrite Hrender. reflexivity. }
  rewrite Hcd. clear Eclean Hroot Hdot.
  set (p := d ++ "/"%char :: strings.Join elems ["/"%char]).
  assert (Hp : p <> []) by (unfold p; destruct d; discriminate).
  assert (Hpre : strings.HasPrefix p (str "/") = rooted).
  { unfold p, rooted. destruct d as [|c d']; [congruence|].
    cbn [app]. rewrite !HasPrefix_slash_cons. reflexivity. }
  assert (Hpbuf : clean_buffer p
                  = {| filepath.out := rev elems ++ filepath.out (buffer_of k reals);
                       filepath.dotdot := k |}).
  { unfold clean_buffer. rewrite Hpre. unfold p.
    rewrite Split_app, fold_left_app.
    rewrite Split_Join
      by (exact Hne || (eapply Forall_impl; [|exact Helems];
                        apply real_element_no_slash)).
    change (fold_left (filepath.clean_elem rooted) (strings.Split d "/")
              {| filepath.out := []; filepath.dotdot := 0 |})
      with (clean_buffer d).
    rewrite Hbuf.
    rewrite fold_real_elements by exact Helems. reflexivity. }
  rewrite (unix_Clean_buffer p) by exact Hp. cbv zeta.
  rewrite Hpre, Hpbuf. cbn [filepath.out].
  rewrite rev_app_distr, rev_involutive, rev_out_buffer_of. fold l.
  assert (Es : render rooted (l ++ elems)
               = render rooted l ++ "/"%char :: strings.Join elems ["/"%char]).
  { unfold render. change (str "/") with ["/"%char].
    rewrite Join_app by assumption. rewrite <- app_assoc. reflexivity. }
  rewrite Es. destruct (streq _ []) eqn:E; [|reflexivity].
  apply streq_eq in E. apply app_eq_nil in E. destruct E as [_ E]. discriminate.
Qed.

End CleanJoin.

Section JoinUnix.

Lemma proper_dir_not_nil (d : gostring) : proper_dir d -> d <> [].
Proof. intros [H _] ->. discriminate. Qed.

Lemma unix_Join_cons (d : gostring) (elems : list gostring) :
  d <> [] -> elems <> [] ->
  filepath.unix_Join (d :: elems)
  = filepath.unix_Clean (d ++ "/"%char :: strings.Join elems ["/"%char]).
Proof.
  intros Hd Hne. cbn [filepath.unix_Join]. apply streq_neq in Hd. rewrite Hd.
  change (str "/") with ["/"%char]. rewrite Join_cons by exact Hne. reflexivity.
Qed.

(** Joining real elements to a directory gives a cleaned path that is
    neither the root nor [.]. *)
Lemma unix_Join_proper (d : gostring) (elems : list gostring) :
  d <> [] -> Forall real_element elems -> elems <> [] ->
  proper_dir (filepath.unix_Join (d :: elems)).
Proof.
  intros Hd Helems Hne. rewrite unix_Join_cons by assumption.
  destruct (exists_last Hne) as (front & name & ->).
  apply Forall_app in Helems. destruct Helems as [Hfront Hname].
  inversion Hname as [|? ? Hreal _]; subst.
  destruct (unix_Clean_last (d ++ "/"%char :: strings.Join (front ++ [name]) ["/"%char])
              (strings.Split d "/" ++ front) name) as (x & Ex & Hx).
  { rewrite Split_app, Split_Join, app_assoc; [reflexivity | |].
    - destruct front; discriminate.
    - apply Forall_app. split; [|constructor; [|constructor]].
      + eapply Forall_impl; [|exact Hfront]. apply real_element_no_slash.
      + apply real_element_no_slash, Hreal. }
  { exact Hreal. }
  destruct Hreal as (H1 & H2 & H3 & H4).
  split; [apply unix_Clean_idempotent|]. rewrite Ex.
  split; intros E; destruct Hx as [->|[y ->]].
  - apply H4. simpl in E. rewrite E. left. reflexivity.
  - rewrite <- app_assoc in E. destruct y; [|destruct y; discriminate].
    injection E as E. congruence.
  - apply H2. exact E.
  - rewrite <- app_assoc in E. destruct y as [|c [|c' y]]; discriminate.
Qed.

(** What is joined to a proper directory comes after it, unchanged. *)
Lemma unix_Join_proper_dir (d : gostring) (elems : list gostring) :
  proper_dir d -> Forall real_element elems -> elems <> [] ->
  filepath.unix_Join (d :: elems) = d ++ "/"%char :: strings.Join elems ["/"%char].
Proof.
  intros Hd Helems Hne. pose proof (proper_dir_not_nil d Hd) as Hnil.
  destruct Hd as (Hclean & Hroot & Hdot).
  rewrite unix_Join_cons by assumption.
  rewrite unix_Clean_under; rewrite ?Hclean; auto.
Qed.

(** [Join] of a directory with two runs of real elements. *)
Lemma unix_Join_app (d : gostring) (es1 es2 : list gostring) :
  d <> [] -> Forall real_element es1 -> es1 <> [] ->
  Forall real_element es2 -> es2 <> [] ->
  filepath.unix_Join (d :: es1 ++ es2)
  = filepath.unix_Join (d :: es1) ++ "/"%char :: strings.Join es2 ["/"%char].
Proof.
  intros Hd H1 Hne1 H2 Hne2.
  pose proof (unix_Join_proper d es1 Hd H1 Hne1) as (_ & Hroot & Hdot).
  rewrite (unix_Join_cons d (es1 ++ es2))
    by (assumption || (destruct es1; [congruence | discriminate])).
  rewrite (unix_Join_cons d es1) in * by assumption.
  rewrite Join_app by assumption.
  change (d ++ "/"%char :: strings.Join es1 ["/"%char]
            ++ "/"%char :: strings.Join es2 ["/"%char])
    with (d ++ ("/"%char :: strings.Join es1 ["/"%char])
            ++ "/"%char :: strings.Join es2 ["/"%char]).
  rewrite app_assoc. apply unix_Clean_under; auto.
  destruct d; discriminate.
Qed.

End JoinUnix.

(** ** The tool root and what lies under it *)

Section ToolRoot.

Variable P : Platform.
Variable Getenv : os.Environ.

Lemma unix_like_ToSlash (s : gostring) :
  unix_like P -> filepath.ToSlash P s = s.
Proof.
  intros (H & _ & _). unfold filepath.ToSlash, filepath.Separator.
  rewrite H. reflexivity.
Qed.

(** [HomeDir] never returns the empty string. *)
Lemma HomeDir_not_nil (home : gostring) : HomeDir Getenv = Ret home -> home <> [].
Proof.
  unfold HomeDir.
  destruct (streq (Getenv (str "HOME")) []) eqn:E1; cbn [negb].
  - destruct (streq (Getenv (str "USERPROFILE")) []) eqn:E2; cbn [negb];
      [discriminate|].
    intros [= <-]. apply streq_neq. exact E2.
  - intros [= <-]. apply streq_neq. exact E1.
Qed.

Lemma VoltPath_not_nil (volt : gostring) :
  unix_like P -> VoltPath P Getenv = Ret volt -> volt <> [].
Proof.
  intros (_ & HJ & _). unfold VoltPath.
  destruct (streq (Getenv (str "VOLTPATH")) []) eqn:E; cbn [negb].
  - destruct (HomeDir Getenv) as [home|v] eqn:Hhome; cbn [bind]; [|discriminate].
    intros [= <-]. unfold filepath.Join. rewrite HJ.
    apply proper_dir_not_nil, unix_Join_proper.
    + apply (HomeDir_not_nil home Hhome).
    + repeat constructor; try discriminate. simpl. intuition discriminate.
    + discriminate.
  - intros [= <-]. apply streq_neq. exact E.
Qed.

End ToolRoot.

Ltac real_literal :=
  repeat split; try discriminate; simpl; intuition discriminate.

(** X1.  [VoltPath] is [$VOLTPATH] as it is when that is set, also without
    a home directory; it panics exactly when [$VOLTPATH], [$HOME] and
    [$USERPROFILE] are all empty. *)
Theorem VoltPath_panics_iff (P : Platform) (Getenv : os.Environ) :
  (Getenv (str "VOLTPATH") <> [] ->
   VoltPath P Getenv = Ret (Getenv (str "VOLTPATH")))
  /\ ((exists v, VoltPath P Getenv = Panic v)
      <-> Getenv (str "VOLTPATH") = [] /\ Getenv (str "HOME") = []
          /\ Getenv (str "USERPROFILE") = []).
Proof.
  unfold VoltPath, HomeDir. split.
  - intros H. apply streq_neq in H. rewrite H. reflexivity.
  - destruct (streq (Getenv (str "VOLTPATH")) []) eqn:E1; cbn [negb].
    + apply streq_eq in E1.
      destruct (streq (Getenv (str "HOME")) []) eqn:E2; cbn [negb bind].
      * apply streq_eq in E2.
        destruct (streq (Getenv (str "USERPROFILE")) []) eqn:E3; cbn [negb bind].
        -- apply streq_eq in E3. split; [auto | eauto].
        -- apply streq_neq in E3. split; [intros [v H]; discriminate | tauto].
      * apply streq_neq in E2. split; [intros [v H]; discriminate | tauto].
    + apply streq_neq in E1. split; [intros [v H]; discriminate | tauto].
Qed.

Lemma VoltPath_panics_iff_witness :
  VoltPath unix voltpath_env = Ret (str "/opt//volt/")
  /\ exists v, VoltPath unix empty_env = Panic v.
Proof.
  split.
  - apply (VoltPath_panics_iff unix voltpath_env). discriminate.
  - apply (VoltPath_panics_iff unix empty_env). repeat split.
Defined.

(** A directory name and the segments of an identifier, joined to the tool
    root. *)
Lemma unix_Join_segments (volt dir id : gostring) :
  volt <> [] -> real_element dir ->
  Forall real_element (strings.Split id "/") ->
  filepath.unix_Join (volt :: dir :: strings.Split id "/")
  = filepath.unix_Join [volt; dir] ++ "/"%char :: id.
Proof.
  intros Hne Hdir Hsegs.
  change (volt :: dir :: strings.Split id "/")
    with (volt :: [dir] ++ strings.Split id "/").
  rewrite unix_Join_app, Join_Split;
    [reflexivity | exact Hne | | discriminate | exact Hsegs | apply Split_not_nil].
  constructor; [exact Hdir | constructor].
Qed.

(** X2.  On Unix, [FullReposPath] of an identifier whose segments are all
    real path elements is the [repos] directory of the tool root, a slash,
    and the identifier unchanged. *)
Theorem FullReposPath_under_repos (P : Platform) (Getenv : os.Environ)
    (volt : gostring) (id : ReposPath) :
  unix_like P -> VoltPath P Getenv = Ret volt ->
  Forall real_element (strings.Split id "/") ->
  FullReposPath P Getenv id
  = Ret (filepath.Join P [volt; str "repos"] ++ str "/" ++ id).
Proof.
  intros HP Hvolt Hsegs. pose proof (VoltPath_not_nil P Getenv volt HP Hvolt) as Hne.
  unfold FullReposPath, ReposPath_String. rewrite Hvolt. cbn [bind app].
  rewrite unix_like_ToSlash by exact HP.
  destruct HP as (_ & HJ & _). unfold filepath.Join. rewrite HJ.
  rewrite unix_Join_segments by (assumption || real_literal). reflexivity.
Qed.

Lemma FullReposPath_under_repos_witness :
  FullReposPath unix voltpath_env (str "github.com/tyru/caw.vim")
  = Ret (str "/opt/volt/repos" ++ str "/" ++ str "github.com/tyru/caw.vim").
Proof.
  apply (FullReposPath_under_repos unix voltpath_env (str "/opt//volt/")).
  - repeat split.
  - reflexivity.
  - repeat constructor; real_literal.
Defined.

(** X3.  On Unix, two identifiers with real segments never get the same
    clone directory. *)
Theorem FullReposPath_injective (P : Platform) (Getenv : os.Environ)
    (volt : gostring) (id1 id2 : ReposPath) :
  unix_like P -> VoltPath P Getenv = Ret volt ->
  Forall real_element (strings.Split id1 "/") ->
  Forall real_element (strings.Split id2 "/") ->
  FullReposPath P Getenv id1 = FullReposPath P Getenv id2 ->
  id1 = id2.
Proof.
  intros HP Hvolt H1 H2. pose proof (VoltPath_not_nil P Getenv volt HP Hvolt) as Hne.
  unfold FullReposPath, ReposPath_String. rewrite Hvolt. cbn [bind app].
  rewrite !unix_like_ToSlash by exact HP.
  destruct HP as (_ & HJ & _). unfold filepath.Join. rewrite HJ.
  rewrite !unix_Join_segments by (assumption || real_literal).
  intros [= E]. apply app_inv_head in E. injection E. auto.
Qed.

Lemma FullReposPath_injective_witness :
  str "github.com/tyru/caw.vim" = str "github.com/tyru/caw.vim".
Proof.
  apply (FullReposPath_injective unix voltpath_env (str "/opt//volt/")).
  - repeat split.
  - reflexivity.
  - repeat constructor; real_literal.
  - repeat constructor; real_literal.
  - reflexivity.
Defined.

(** X4.  On Unix, [Plugconf] of an identifier is the [plugconf] directory of
    the tool root, a slash, and the identifier with [.vim] added, when the
    segments of that file name are real path elements. *)
Theorem Plugconf_under_plugconf (P : Platform) (Getenv : os.Environ)
    (volt : gostring) (id : ReposPath) :
  unix_like P -> VoltPath P Getenv = Ret volt ->
  Forall real_element (strings.Split (id ++ str ".vim") "/") ->
  Plugconf P Getenv id
  = Ret (filepath.Join P [volt; str "plugconf"] ++ str "/" ++ id ++ str ".vim").
Proof.
  intros HP Hvolt Hsegs. pose proof (VoltPath_not_nil P Getenv volt HP Hvolt) as Hne.
  unfold Plugconf, ReposPath_String. rewrite Hvolt. cbn [bind app].
  rewrite unix_like_ToSlash by exact HP.
  destruct HP as (_ & HJ & _). unfold filepath.Join. rewrite HJ.
  rewrite unix_Join_segments by (assumption || real_literal). reflexivity.
Qed.

Lemma Plugconf_under_plugconf_witness :
  Plugconf unix home_env (str "github.com/tyru/caw.vim")
  = Ret (str "/home/volt/volt/plugconf/github.com/tyru/caw.vim.vim").
Proof.
  apply (Plugconf_under_plugconf unix home_env (str "/home/volt/volt")).
  - repeat split.
  - reflexivity.
  - repeat constructor; real_literal.
Defined.

(** A slash at the end of a path is cleaned away. *)
Lemma unix_Clean_trailing_slash (p : gostring) :
  p <> [] -> filepath.unix_Clean (p ++ ["/"%char]) = filepath.unix_Clean p.
Proof.
  intros Hp. destruct p as [|c p]; [congruence|]. unfold filepath.unix_Clean.
  change (streq ((c :: p) ++ ["/"%char]) []) with false.
  change (streq (c :: p) []) with false.
  cbn [app]. rewrite !HasPrefix_slash_cons.
  change (c :: p ++ ["/"%char]) with ((c :: p) ++ "/"%char :: []).
  rewrite Split_app, fold_left_app. reflexivity.
Qed.

Lemma proper_dir_sub (d : gostring) (elems : list gostring) :
  proper_dir d -> Forall real_element elems -> elems <> [] ->
  proper_dir (d ++ "/"%char :: strings.Join elems ["/"%char]).
Proof.
  intros Hd Helems Hne. rewrite <- unix_Join_proper_dir by assumption.
  apply unix_Join_proper; [apply proper_dir_not_nil, Hd | assumption..].
Qed.

Lemma VimDir_unix (P : Platform) (Getenv : os.Environ) (home : gostring) :
  unix_like P -> HomeDir Getenv = Ret home ->
  VimDir P Getenv = Ret (filepath.unix_Join [home; str ".vim"])
  /\ proper_dir (filepath.unix_Join [home; str ".vim"]).
Proof.
  intros (HG & HJ & _) Hhome. unfold VimDir, filepath.Join.
  rewrite HG, Hhome, HJ. split; [reflexivity|].
  apply unix_Join_proper;
    [apply (HomeDir_not_nil Getenv home Hhome) | | discriminate].
  constructor; [real_literal | constructor].
Qed.

(** X5.  On Unix, [RCDir] of a profile name that is a real path element is
    that name inside the [rc] directory of the tool root; the empty profile
    name gives the [rc] directory itself. *)
Theorem RCDir_profile (P : Platform) (Getenv : os.Environ) (volt : gostring) :
  unix_like P -> VoltPath P Getenv = Ret volt ->
  (forall profile, real_element profile ->
     RCDir P Getenv profile
     = Ret (filepath.Join P [volt; str "rc"] ++ str "/" ++ profile))
  /\ RCDir P Getenv [] = Ret (filepath.Join P [volt; str "rc"]).
Proof.
  intros HP Hvolt. pose proof (VoltPath_not_nil P Getenv volt HP Hvolt) as Hne.
  destruct HP as (_ & HJ & _). unfold RCDir, filepath.Join.
  rewrite Hvolt, HJ. cbn [bind]. split.
  - intros profile Hreal.
    change [volt; str "rc"; profile] with (volt :: [str "rc"] ++ [profile]).
    rewrite (unix_Join_app volt [str "rc"] [profile]);
      [reflexivity | exact Hne | | discriminate | | discriminate].
    + constructor; [real_literal | constructor].
    + constructor; [exact Hreal | constructor].
  - f_equal. rewrite !unix_Join_cons by (exact Hne || discriminate).
    change (volt ++ "/"%char :: strings.Join [str "rc"; []] ["/"%char])
      with (volt ++ ("/"%char :: str "rc") ++ ["/"%char]).
    rewrite app_assoc. apply unix_Clean_trailing_slash.
    destruct volt; discriminate.
Qed.

Lemma RCDir_profile_witness :
  RCDir unix voltpath_env (str "default") = Ret (str "/opt/volt/rc/default").
Proof.
  apply (RCDir_profile unix voltpath_env (str "/opt//volt/")).
  - repeat split.
  - reflexivity.
  - real_literal.
Defined.

(** X6.  On Unix, when the cleaned tool root is neither [/] nor [.], the
    lock file, the configuration file, the transaction lock and the
    temporary directory are the cleaned tool root followed by their fixed
    names. *)
Theorem volt_files_under_root (P : Platform) (Getenv : os.Environ)
    (volt : gostring) :
  unix_like P -> VoltPath P Getenv = Ret volt ->
  filepath.unix_Clean volt <> str "/" -> filepath.unix_Clean volt <> str "." ->
  LockJSON P Getenv = Ret (filepath.unix_Clean volt ++ str "/lock.json")
  /\ ConfigTOML P Getenv = Ret (filepath.unix_Clean volt ++ str "/config.toml")
  /\ TrxLock P Getenv = Ret (filepath.unix_Clean volt ++ str "/trx.lock")
  /\ TempDir P Getenv = Ret (filepath.unix_Clean volt ++ str "/tmp").
Proof.
  intros HP Hvolt Hroot Hdot.
  pose proof (VoltPath_not_nil P Getenv volt HP Hvolt) as Hne.
  destruct HP as (_ & HJ & _).
  assert (H : forall name, real_element name ->
                filepath.unix_Join [volt; name]
                = filepath.unix_Clean volt ++ "/"%char :: name).
  { intros name Hname. rewrite unix_Join_cons by (exact Hne || discriminate).
    apply (unix_Clean_under volt [name]); auto; try discriminate. }
  unfold LockJSON, ConfigTOML, TrxLock, TempDir, filepath.Join.
  rewrite Hvolt, HJ. cbn [bind].
  repeat split; rewrite H by real_literal; reflexivity.
Qed.

Lemma volt_files_under_root_witness :
  LockJSON unix voltpath_env = Ret (str "/opt/volt/lock.json")
  /\ ConfigTOML unix voltpath_env = Ret (str "/opt/volt/config.toml")
  /\ TrxLock unix voltpath_env = Ret (str "/opt/volt/trx.lock")
  /\ TempDir unix voltpath_env = Ret (str "/opt/volt/tmp").
Proof.
  apply (volt_files_under_root unix voltpath_env (str "/opt//volt/"));
    try discriminate; [repeat split | reflexivity].
Defined.

(** X7.  On Unix, with the home directory resolved, the editor's directory
    is the cleaned join of the home directory and [.vim], and the
    directories and files of the integration lie under it at fixed places. *)
Theorem VimVolt_dirs (P : Platform) (Getenv : os.Environ) (home : gostring) :
  unix_like P -> HomeDir Getenv = Ret home ->
  VimDir P Getenv = Ret (filepath.unix_Join [home; str ".vim"])
  /\ VimVoltDir P Getenv
     = Ret (filepath.unix_Join [home; str ".vim"] ++ str "/pack/volt")
  /\ VimVoltOptDir P Getenv
     = Ret (filepath.unix_Join [home; str ".vim"] ++ str "/pack/volt/opt")
  /\ VimVoltStartDir P Getenv
     = Ret (filepath.unix_Join [home; str ".vim"] ++ str "/pack/volt/start")
  /\ BuildInfoJSON P Getenv
     = Ret (filepath.unix_Join [home; str ".vim"]
            ++ str "/pack/volt/build-info.json")
  /\ BundledPlugConf P Getenv
     = Ret (filepath.unix_Join [home; str ".vim"]
            ++ str "/pack/volt/start/system/plugin/bundled_plugconf.vim").
Proof.
  intros HP Hhome. destruct (VimDir_unix P Getenv home HP Hhome) as [Hvim Hproper].
  destruct HP as (_ & HJ & _).
  remember (filepath.unix_Join [home; str ".vim"]) as vim eqn:Evim.
  assert (Hsub : forall elems, Forall real_element elems -> elems <> [] ->
                   filepath.unix_Join (vim :: elems)
                   = vim ++ "/"%char :: strings.Join elems ["/"%char])
    by (intros; apply unix_Join_proper_dir; assumption).
  assert (Hpack : proper_dir (vim ++ str "/pack/volt")).
  { apply (proper_dir_sub vim [str "pack"; str "volt"]);
      [exact Hproper | | discriminate].
    repeat constructor; real_literal. }
  assert (Hstart : proper_dir (vim ++ str "/pack/volt/start")).
  { apply (proper_dir_sub vim [str "pack"; str "volt"; str "start"]);
      [exact Hproper | | discriminate].
    repeat constructor; real_literal. }
  assert (E1 : filepath.unix_Join [vim; str "pack"; str "volt"]
               = vim ++ str "/pack/volt")
    by (apply (Hsub [str "pack"; str "volt"]);
        [repeat constructor; real_literal | discriminate]).
  assert (E2 : filepath.unix_Join [vim; str "pack"; str "volt"; str "opt"]
               = vim ++ str "/pack/volt/opt")
    by (apply (Hsub [str "pack"; str "volt"; str "opt"]);
        [repeat constructor; real_literal | discriminate]).
  assert (E3 : filepath.unix_Join [vim; str "pack"; str "volt"; str "start"]
               = vim ++ str "/pack/volt/start")
    by (apply (Hsub [str "pack"; str "volt"; str "start"]);
        [repeat constructor; real_literal | discriminate]).
  assert (E4 : filepath.unix_Join [vim ++ str "/pack/volt"; str "build-info.json"]
               = (vim ++ str "/pack/volt") ++ str "/build-info.json")
    by (apply (unix_Join_proper_dir _ [str "build-info.json"]);
        [exact Hpack | repeat constructor; real_literal | discriminate]).
  assert (E5 : filepath.unix_Join
                 [vim ++ str "/pack/volt/start"; str "system"; str "plugin";
                  str "bundled_plugconf.vim"]
               = (vim ++ str "/pack/volt/start")
                 ++ str "/system/plugin/bundled_plugconf.vim")
    by (apply (unix_Join_proper_dir _ [str "system"; str "plugin";
                                       str "bundled_plugconf.vim"]);
        [exact Hstart | repeat constructor; real_literal | discriminate]).
  unfold BundledPlugConf, BuildInfoJSON, VimVoltStartDir, VimVoltOptDir,
    VimVoltDir, filepath.Join.
  rewrite Hvim, HJ. cbn [bind]. rewrite E1, E2, E3. cbn [bind].
  repeat split; f_equal.
  - etransitivity; [exact E4|]. rewrite <- app_assoc. reflexivity.
  - etransitivity; [exact E5|]. rewrite <- app_assoc. reflexivity.
Qed.

Lemma VimVolt_dirs_witness :
  VimDir unix home_env = Ret (str "/home/volt/.vim")
  /\ VimVoltDir unix home_env = Ret (str "/home/volt/.vim/pack/volt")
  /\ VimVoltOptDir unix home_env = Ret (str "/home/volt/.vim/pack/volt/opt")
  /\ VimVoltStartDir unix home_env = Ret (str "/home/volt/.vim/pack/volt/start")
  /\ BuildInfoJSON unix home_env
     = Ret (str "/home/volt/.vim/pack/volt/build-info.json")
  /\ BundledPlugConf unix home_env
     = Ret (str "/home/volt/.vim/pack/volt/start/system/plugin/bundled_plugconf.vim").
Proof.
  apply (VimVolt_dirs unix home_env (str "/home/volt")); [repeat split | reflexivity].
Defined.

(** ** The codec, with underscores *)

Section CodecFacts.

Lemma HasPrefix_two (a b x y : ascii) (s : gostring) :
  strings.HasPrefix (a :: b :: s) [x; y] = Ascii.eqb a x && Ascii.eqb b y.
Proof.
  unfold strings.HasPrefix. simpl. rewrite andb_true_r. reflexivity.
Qed.

Lemma HasPrefix_cons_neq (c x : ascii) (s p : gostring) :
  c <> x -> strings.HasPrefix (c :: s) (x :: p) = false.
Proof.
  intros H. unfold strings.HasPrefix. cbn [length firstn streq].
  apply Ascii.eqb_neq in H. rewrite H. apply andb_false_r.
Qed.

Lemma Contains_cons_neq (c x : ascii) (s p : gostring) :
  c <> x -> strings.Contains (c :: s) (x :: p) = strings.Contains s (x :: p).
Proof.
  intros H. cbn [strings.Contains]. rewrite HasPrefix_cons_neq by exact H.
  reflexivity.
Qed.

(** The second unpacker, one step at a time. *)
Lemma unpacker2_other (c : ascii) (s : gostring) :
  c <> "/"%char -> unpacker2_Replace (c :: s) = c :: unpacker2_Replace s.
Proof.
  intros H. unfold unpacker2_Replace, strings.ReplaceString.
  cbn [strings.replace_from].
  change (str "//") with ("/"%char :: ["/"%char]).
  rewrite HasPrefix_cons_neq by exact H. reflexivity.
Qed.

Lemma unpacker2_slash_slash (s : gostring) :
  unpacker2_Replace ("/"%char :: "/"%char :: s) = "_"%char :: unpacker2_Replace s.
Proof. reflexivity. Qed.

Lemma unpacker2_slash_other (c : ascii) (s : gostring) :
  c <> "/"%char ->
  unpacker2_Replace ("/"%char :: c :: s) = "/"%char :: unpacker2_Replace (c :: s).
Proof.
  intros H. unfold unpacker2_Replace, strings.ReplaceString.
  cbn [strings.replace_from].
  change (str "//") with ["/"%char; "/"%char].
  rewrite HasPrefix_two. apply Ascii.eqb_neq in H. rewrite H.
  rewrite andb_false_r. reflexivity.
Qed.

(** What the first unpacker makes of a packed identifier: an underscore
    has become two slashes, everything else is as it was. *)
Lemma unpacker1_packer (id : gostring) :
  unpacker1_Replace (packer_Replace id)
  = flat_map (fun c => if Ascii.eqb c "_" then str "//" else [c]) id.
Proof.
  unfold unpacker1_Replace, packer_Replace, strings.ReplaceBytes.
  induction id as [|c id IH]; [reflexivity|].
  cbn [flat_map]. rewrite flat_map_app, IH. f_equal.
  cbn [strings.lookup_byte].
  destruct (Ascii.eqb_spec c "_") as [->|H1]; [reflexivity|].
  destruct (Ascii.eqb_spec c "/") as [->|H2]; [reflexivity|].
  cbn [flat_map strings.lookup_byte app].
  apply Ascii.eqb_neq in H1. rewrite H1. reflexivity.
Qed.

(** Unpacking a packed identifier gives it back exactly when no slash of
    the identifier is followed by a slash or by an underscore. *)
Lemma unpack_pack_iff (id : gostring) :
  unpacker2_Replace (unpacker1_Replace (packer_Replace id)) = id
  <-> strings.Contains id (str "//") = false
      /\ strings.Contains id (str "/_") = false.
Proof.
  rewrite unpacker1_packer.
  change (str "//") with ["/"%char; "/"%char].
  change (str "/_") with ["/"%char; "_"%char].
  induction id as [|c id IH]; [split; auto|].
  cbn [flat_map].
  destruct (Ascii.eqb_spec c "_") as [->|Hu].
  - cbn [app]. rewrite unpacker2_slash_slash, !Contains_cons_neq by discriminate.
    rewrite <- IH. split; [intros [= E]; exact E | intros ->; reflexivity].
  - cbn [app]. destruct (Ascii.eqb_spec c "/") as [->|Hs].
    + destruct id as [|d id].
      * split; [split; reflexivity | reflexivity].
      * cbn [strings.Contains] in *. rewrite !HasPrefix_two. cbn [Ascii.eqb].
        change (Ascii.eqb "/" "/") with true. cbn [andb].
        cbn [flat_map] in *.
        destruct (Ascii.eqb_spec d "_") as [->|Hd].
        -- cbn [app orb]. rewrite unpacker2_slash_slash.
           change (Ascii.eqb "_" "/") with false. cbn [orb].
           split; [discriminate | intros [_ H]; discriminate].
        -- cbn [app] in *. destruct (Ascii.eqb_spec d "/") as [->|Hd'].
           ++ rewrite unpacker2_slash_slash. cbn [orb].
              split; [discriminate | intros [H _]; discriminate].
           ++ rewrite unpacker2_slash_other by exact Hd'. cbn [orb].
              rewrite <- IH.
              split; [intros [= E]; exact E | intros ->; reflexivity].
    + rewrite unpacker2_other, !Contains_cons_neq by exact Hs.
      rewrite <- IH. split; [intros [= E]; exact E | intros ->; reflexivity].
Qed.

End CodecFacts.

Section CodecPaths.

Lemma packer_cons (c : ascii) (id : gostring) :
  packer_Replace (c :: id)
  = (if Ascii.eqb c "_" then str "__"
     else if Ascii.eqb c "/" then str "_" else [c]) ++ packer_Replace id.
Proof. reflexivity. Qed.

Lemma packer_nil_inv (id : gostring) : packer_Replace id = [] -> id = [].
Proof.
  destruct id as [|c id]; [reflexivity|]. rewrite packer_cons.
  destruct (Ascii.eqb c "_"); [discriminate|].
  destruct (Ascii.eqb c "/"); discriminate.
Qed.

Lemma packer_no_slash (id : gostring) : ~ In "/"%char (packer_Replace id).
Proof.
  induction id as [|c id IH]; [simpl; tauto|]. rewrite packer_cons.
  intros H. apply in_app_or in H. destruct H as [H|H]; [|tauto].
  destruct (Ascii.eqb_spec c "_"); [simpl in H; intuition discriminate|].
  destruct (Ascii.eqb_spec c "/"); simpl in H; intuition (discriminate || congruence).
Qed.

(** The packed name is a real path element, unless the identifier is empty,
    [.] or [..]. *)
Lemma packer_real_element (id : gostring) :
  id <> [] -> id <> str "." -> id <> str ".." -> real_element (packer_Replace id).
Proof.
  intros H1 H2 H3.
  assert (Hdot : forall t, packer_Replace t = str "." -> t = str ".").
  { intros [|c t]; [discriminate|]. rewrite packer_cons.
    destruct (Ascii.eqb_spec c "_"); [discriminate|].
    destruct (Ascii.eqb_spec c "/"); [discriminate|].
    intros [= -> E]. apply packer_nil_inv in E. subst t. reflexivity. }
  repeat split.
  - intros E. apply H1, packer_nil_inv, E.
  - intros E. apply H2, Hdot, E.
  - intros E. apply H3. destruct id as [|c t]; [discriminate|].
    rewrite packer_cons in E.
    destruct (Ascii.eqb_spec c "_"); [discriminate|].
    destruct (Ascii.eqb_spec c "/"); [discriminate|].
    injection E as -> E. apply Hdot in E. subst t. reflexivity.
  - apply packer_no_slash.
Qed.

(** Where the encoded directory is, on Unix. *)
Lemma EncodeReposPath_unix (P : Platform) (Getenv : os.Environ)
    (home : gostring) (id : ReposPath) :
  unix_like P -> HomeDir Getenv = Ret home ->
  id <> [] -> id <> str "." -> id <> str ".." ->
  exists opt,
    VimVoltOptDir P Getenv = Ret opt
    /\ EncodeReposPath P Getenv id = Ret (opt ++ "/"%char :: packer_Replace id)
    /\ filepath.Base P (opt ++ "/"%char :: packer_Replace id) = packer_Replace id.
Proof.
  intros HP Hhome H1 H2 H3.
  destruct (VimDir_unix P Getenv home HP Hhome) as [Hvim Hproper].
  destruct HP as (_ & HJ & HB).
  pose proof (packer_real_element id H1 H2 H3) as Hreal.
  remember (filepath.unix_Join [home; str ".vim"]) as vim eqn:Evim.
  assert (Hopt : proper_dir (filepath.unix_Join
                               [vim; str "pack"; str "volt"; str "opt"])).
  { apply unix_Join_proper;
      [apply proper_dir_not_nil, Hproper | | discriminate].
    repeat constructor; real_literal. }
  exists (filepath.unix_Join [vim; str "pack"; str "volt"; str "opt"]).
  unfold EncodeReposPath, VimVoltOptDir, filepath.Join, filepath.Base,
    ReposPath_String.
  rewrite Hvim, HJ, HB. cbn [bind].
  assert (E : filepath.unix_Join
                [filepath.unix_Join [vim; str "pack"; str "volt"; str "opt"];
                 packer_Replace id]
              = filepath.unix_Join [vim; str "pack"; str "volt"; str "opt"]
                ++ "/"%char :: packer_Replace id)
    by (apply (unix_Join_proper_dir _ [packer_Replace id]);
        [exact Hopt | constructor; [exact Hreal | constructor] | discriminate]).
  split; [reflexivity|]. split.
  - f_equal. exact E.
  - rewrite <- E. apply unix_Base_Join. exact Hreal.
Qed.

End CodecPaths.

(** X8.  On Unix, the encoded directory of an identifier other than the
    empty one, [.] and [..] lies directly in the [opt] directory: it is
    that directory, a slash, and the packed name, which has no slash. *)
Theorem EncodeReposPath_flat (P : Platform) (Getenv : os.Environ)
    (home : gostring) (id : ReposPath) :
  unix_like P -> HomeDir Getenv = Ret home ->
  id <> [] -> id <> str "." -> id <> str ".." ->
  exists opt,
    VimVoltOptDir P Getenv = Ret opt
    /\ EncodeReposPath P Getenv id = Ret (opt ++ str "/" ++ packer_Replace id)
    /\ ~ In "/"%char (packer_Replace id).
Proof.
  intros HP Hhome H1 H2 H3.
  destruct (EncodeReposPath_unix P Getenv home id HP Hhome H1 H2 H3)
    as (opt & Hopt & Henc & _).
  exists opt. split; [exact Hopt|]. split; [exact Henc|]. apply packer_no_slash.
Qed.

Lemma EncodeReposPath_flat_witness :
  exists opt,
    VimVoltOptDir unix home_env = Ret opt
    /\ EncodeReposPath unix home_env (str "github.com/tyru/open_browser.vim")
       = Ret (opt ++ str "/"
                  ++ packer_Replace (str "github.com/tyru/open_browser.vim"))
    /\ ~ In "/"%char (packer_Replace (str "github.com/tyru/open_browser.vim")).
Proof.
  apply (EncodeReposPath_flat unix home_env (str "/home/volt"));
    try discriminate; [repeat split | reflexivity].
Defined.

(** X9.  On Unix, for an identifier other than the empty one, [.] and [..],
    decoding the encoded directory gives the identifier back exactly when no
    slash of the identifier is followed by a slash or by an underscore;
    underscores elsewhere are kept. *)
Theorem codec_round_trip_iff (P : Platform) (Getenv : os.Environ)
    (home : gostring) (id : ReposPath) :
  unix_like P -> HomeDir Getenv = Ret home ->
  id <> [] -> id <> str "." -> id <> str ".." ->
  exists path,
    EncodeReposPath P Getenv id = Ret path
    /\ (DecodeReposPath P path = id
        <-> strings.Contains id (str "//") = false
            /\ strings.Contains id (str "/_") = false).
Proof.
  intros HP Hhome H1 H2 H3.
  destruct (EncodeReposPath_unix P Getenv home id HP Hhome H1 H2 H3)
    as (opt & _ & Henc & Hbase).
  eexists. split; [exact Henc|].
  unfold DecodeReposPath. rewrite Hbase. apply unpack_pack_iff.
Qed.

Lemma codec_round_trip_iff_witness :
  exists path,
    EncodeReposPath unix home_env (str "github.com/tyru/open_browser.vim")
    = Ret path
    /\ (DecodeReposPath unix path = str "github.com/tyru/open_browser.vim"
        <-> strings.Contains (str "github.com/tyru/open_browser.vim") (str "//")
            = false
            /\ strings.Contains (str "github.com/tyru/open_browser.vim") (str "/_")
               = false).
Proof.
  apply (codec_round_trip_iff unix home_env (str "/home/volt"));
    try discriminate; [repeat split | reflexivity].
Defined.

(** X10.  On Unix, two identifiers in which no slash is followed by a slash
    or an underscore, and which are not empty, [.] or [..], never get the
    same encoded directory. *)
Theorem EncodeReposPath_injective (P : Platform) (Getenv : os.Environ)
    (home : gostring) (id1 id2 : ReposPath) :
  unix_like P -> HomeDir Getenv = Ret home ->
  id1 <> [] -> id1 <> str "." -> id1 <> str ".." ->
  id2 <> [] -> id2 <> str "." -> id2 <> str ".." ->
  strings.Contains id1 (str "//") = false ->
  strings.Contains id1 (str "/_") = false ->
  strings.Contains id2 (str "//") = false ->
  strings.Contains id2 (str "/_") = false ->
  EncodeReposPath P Getenv id1 = EncodeReposPath P Getenv id2 ->
  id1 = id2.
Proof.
  intros HP Hhome A1 A2 A3 B1 B2 B3 C1 C2 D1 D2 E.
  destruct (EncodeReposPath_unix P Getenv home id1 HP Hhome A1 A2 A3)
    as (opt & Hopt & Henc1 & _).
  destruct (EncodeReposPath_unix P Getenv home id2 HP Hhome B1 B2 B3)
    as (opt' & Hopt' & Henc2 & _).
  rewrite Hopt in Hopt'. injection Hopt' as <-.
  rewrite Henc1, Henc2 in E. injection E as E. apply app_inv_head in E.
  injection E as E.
  rewrite <- (proj2 (unpack_pack_iff id1) (conj C1 C2)).
  rewrite <- (proj2 (unpack_pack_iff id2) (conj D1 D2)).
  rewrite E. reflexivity.
Qed.

Lemma EncodeReposPath_injective_witness :
  str "github.com/tyru/open_browser.vim" = str "github.com/tyru/open_browser.vim".
Proof.
  apply (EncodeReposPath_injective unix home_env (str "/home/volt"));
    try discriminate; try reflexivity. repeat split.
Defined.

Section DecodeImage.

Lemma unpacker1_no_underscore (x : gostring) : ~ In "_"%char (unpacker1_Replace x).
Proof.
  unfold unpacker1_Replace, strings.ReplaceBytes.
  induction x as [|c x IH]; [simpl; tauto|].
  cbn [flat_map strings.lookup_byte]. intros H. apply in_app_or in H.
  destruct H as [H|H]; [|tauto].
  destruct (Ascii.eqb_spec c "_"); simpl in H; intuition (discriminate || congruence).
Qed.

(** After the second unpacker no slash is followed by a slash or by an
    underscore. *)
Lemma unpacker2_image (w : gostring) :
  ~ In "_"%char w ->
  strings.Contains (unpacker2_Replace w) (str "//") = false
  /\ strings.Contains (unpacker2_Replace w) (str "/_") = false.
Proof.
  change (str "//") with ["/"%char; "/"%char].
  change (str "/_") with ["/"%char; "_"%char].
  assert (H : forall n w, length w <= n -> ~ In "_"%char w ->
                strings.Contains (unpacker2_Replace w) ["/"%char; "/"%char] = false
                /\ strings.Contains (unpacker2_Replace w) ["/"%char; "_"%char]
                   = false).
  { clear w. induction n as [|n IH]; intros [|c w] Hlen Hno;
      try (split; reflexivity); simpl in Hlen; [lia|].
    assert (Hw : ~ In "_"%char w) by (simpl in Hno; tauto).
    destruct (Ascii.eqb_spec c "/") as [->|Hc].
    - destruct w as [|c2 w2]; [split; reflexivity|].
      assert (Hw2 : ~ In "_"%char w2) by (simpl in Hw; tauto).
      assert (Hc2 : c2 <> "_"%char) by (simpl in Hw; tauto).
      destruct (Ascii.eqb_spec c2 "/") as [->|Hs].
      + rewrite unpacker2_slash_slash, !Contains_cons_neq by discriminate.
        apply IH; [simpl in Hlen; lia | exact Hw2].
      + rewrite unpacker2_slash_other by exact Hs.
        destruct (IH (c2 :: w2)) as [I1 I2]; [lia | exact Hw |].
        rewrite unpacker2_other in * by exact Hs.
        cbn [strings.Contains] in *. rewrite !HasPrefix_two.
        apply Ascii.eqb_neq in Hs, Hc2. rewrite Hs, Hc2, !andb_false_r.
        cbn [orb]. auto.
    - rewrite unpacker2_other, !Contains_cons_neq by exact Hc.
      apply IH; [lia | exact Hw]. }
  apply (H (length w)). lia.
Qed.

End DecodeImage.

(** X11.  On every platform, in an identifier that [DecodeReposPath]
    returns no slash is followed by a slash or by an underscore: a decoded
    identifier has no empty segment between two slashes. *)
Theorem DecodeReposPath_image (P : Platform) (name : gostring) :
  strings.Contains (DecodeReposPath P name) (str "//") = false
  /\ strings.Contains (DecodeReposPath P name) (str "/_") = false.
Proof.
  unfold DecodeReposPath. apply unpacker2_image, unpacker1_no_underscore.
Qed.

(** X12.  On Unix, an identifier that [DecodeReposPath] returns, other than
    the empty one, [.] and [..], is encoded to a directory that is decoded
    to the same identifier. *)
Theorem decode_encode_decode (P : Platform) (Getenv : os.Environ)
    (home name : gostring) :
  unix_like P -> HomeDir Getenv = Ret home ->
  DecodeReposPath P name <> [] ->
  DecodeReposPath P name <> str "." ->
  DecodeReposPath P name <> str ".." ->
  exists path,
    EncodeReposPath P Getenv (DecodeReposPath P name) = Ret path
    /\ DecodeReposPath P path = DecodeReposPath P name.
Proof.
  intros HP Hhome H1 H2 H3.
  destruct (EncodeReposPath_unix P Getenv home _ HP Hhome H1 H2 H3)
    as (opt & _ & Henc & Hbase).
  eexists. split; [exact Henc|].
  unfold DecodeReposPath at 1. rewrite Hbase. apply unpack_pack_iff.
  unfold DecodeReposPath. apply unpacker2_image, unpacker1_no_underscore.
Qed.

Lemma decode_encode_decode_witness :
  exists path,
    EncodeReposPath unix home_env
      (DecodeReposPath unix (str "/x/opt/github.com_tyru_open__browser.vim"))
    = Ret path
    /\ DecodeReposPath unix path
       = DecodeReposPath unix (str "/x/opt/github.com_tyru_open__browser.vim").
Proof.
  apply (decode_encode_decode unix home_env (str "/home/volt"));
    try discriminate; [repeat split | reflexivity].
Defined.

(** ** More on the normalizer *)

Section NormalizerMore.

Variable P : Platform.

Lemma component_of_segment (x : gostring) :
  slashed P x -> ~ In "/"%char x -> component P x.
Proof.
  intros Hsl Hno. split; [exact Hno|]. intros Hin. apply Hno.
  unfold slashed in Hsl. rewrite Forall_forall in Hsl.
  rewrite <- (Hsl _ Hin eq_refl) at 1. exact Hin.
Qed.

Lemma slashed_Join (l : list gostring) :
  Forall (slashed P) l -> slashed P (strings.Join l ["/"%char]).
Proof.
  induction 1 as [|e l He Hl IH]; [constructor|].
  destruct l as [|e' l]; [exact He|].
  rewrite Join_cons by discriminate.
  apply slashed_app. split; [exact He|]. apply slashed_cons. split; [auto | exact IH].
Qed.

Lemma scheme_token_component (tok : gostring) :
  In tok scheme_tokens -> component P tok.
Proof.
  intros H. apply component_of_segment.
  - apply no_backslash_slashed.
    simpl in H. destruct H as [<-|[<-|[<-|[]]]]; reflexivity.
  - simpl in H. destruct H as [<-|[<-|[<-|[]]]]; simpl; intuition discriminate.
Qed.

Lemma ToSlash_idempotent (raw : gostring) :
  filepath.ToSlash P (filepath.ToSlash P raw) = filepath.ToSlash P raw.
Proof. apply slashed_ToSlash, ToSlash_slashed. Qed.

End NormalizerMore.

(** The form with a host, with its last segment as it is written. *)
Lemma NormalizeRepos_of_host_segments (P : Platform) (host owner name : gostring) :
  component P host -> component P owner -> component P name ->
  NormalizeRepos P (host ++ "/"%char :: owner ++ "/"%char :: name)
  = Ret (host ++ "/"%char :: owner ++ "/"%char
              :: strings.TrimSuffix name (str ".git"), nil_error).
Proof.
  intros Hh Ho Hn.
  assert (Hsl : slashed P (host ++ "/"%char :: owner ++ "/"%char :: name)).
  { apply slashed_app. split; [apply component_slashed, Hh|].
    apply slashed_cons. split; [auto|].
    apply slashed_app. split; [apply component_slashed, Ho|].
    apply slashed_cons. split; [auto | apply component_slashed, Hn]. }
  destruct Hh as [Hh _], Ho as [Ho _], Hn as [Hn _].
  rewrite NormalizeRepos_three; rewrite (slashed_ToSlash _ _ Hsl).
  - change (host ++ "/"%char :: owner ++ "/"%char :: name)
      with (host ++ ("/"%char :: owner) ++ "/"%char :: name).
    rewrite app_assoc, TrimSuffix_last_segment by apply git_no_slash.
    rewrite <- app_assoc. reflexivity.
  - rewrite !Split_app, !Split_no_sep by assumption. reflexivity.
Qed.

(** X13.  The two short forms of the comment of [NormalizeRepos]: for
    segments without slash or separator, [owner/name] gets the host
    [github.com], [host/owner/name] is kept, and in both one trailing [.git]
    of the name is removed. *)
Theorem NormalizeRepos_short_forms (P : Platform) (host owner name : gostring) :
  component P host -> component P owner -> component P name ->
  NormalizeRepos P (owner ++ str "/" ++ name)
  = Ret (str "github.com/" ++ owner ++ str "/"
           ++ strings.TrimSuffix name (str ".git"), nil_error)
  /\ NormalizeRepos P (host ++ str "/" ++ owner ++ str "/" ++ name)
     = Ret (host ++ str "/" ++ owner ++ str "/"
              ++ strings.TrimSuffix name (str ".git"), nil_error).
Proof.
  intros Hh Ho Hn. split;
    [|apply NormalizeRepos_of_host_segments; assumption].
  pose proof (component_slashed P owner Ho) as So.
  pose proof (component_slashed P name Hn) as Sn.
  destruct Ho as [Ho _], Hn as [Hn _].
  change (str "/") with ["/"%char]. cbn [app].
  assert (Hsl : slashed P (owner ++ "/"%char :: name)).
  { apply slashed_app. split; [exact So|]. apply slashed_cons. auto. }
  rewrite NormalizeRepos_two; rewrite (slashed_ToSlash _ _ Hsl).
  - change (str "github.com/" ++ owner ++ "/"%char :: name)
      with ((str "github.com" ++ ("/"%char :: owner)) ++ "/"%char :: name).
    rewrite TrimSuffix_last_segment by apply git_no_slash.
    rewrite <- app_assoc. reflexivity.
  - rewrite Split_app, !Split_no_sep by assumption. reflexivity.
Qed.

Lemma NormalizeRepos_short_forms_witness :
  NormalizeRepos unix (str "tyru" ++ str "/" ++ str "caw.vim.git")
  = Ret (str "github.com/" ++ str "tyru" ++ str "/"
           ++ strings.TrimSuffix (str "caw.vim.git") (str ".git"), nil_error).
Proof.
  apply (NormalizeRepos_short_forms unix (str "gitlab.com") (str "tyru")
           (str "caw.vim.git"));
    unfold component; simpl; intuition discriminate.
Defined.

(** X14.  [NormalizeRepos] returns the invalid-format error exactly when
    the input has neither two nor three segments and its first segment is
    not a scheme token; the identifier is then empty and the message names
    the input with its separators turned to slashes. *)
Theorem NormalizeRepos_error_iff (P : Platform) (raw : gostring) :
  ((exists id msg, NormalizeRepos P raw = Ret (id, errors_New msg))
   <-> length (strings.Split (filepath.ToSlash P raw) "/") <> 2
       /\ length (strings.Split (filepath.ToSlash P raw) "/") <> 3
       /\ is_scheme_token (hd [] (strings.Split (filepath.ToSlash P raw) "/"))
          = false)
  /\ (forall id msg,
        NormalizeRepos P raw = Ret (id, errors_New msg) ->
        id = []
        /\ msg = str "invalid format of repository: " ++ filepath.ToSlash P raw).
Proof.
  unfold NormalizeRepos, is_scheme_token.
  pose proof (Split_not_nil "/" (filepath.ToSlash P raw)) as Hne.
  destruct (strings.Split (filepath.ToSlash P raw) "/") as [|p0 rest] eqn:E;
    [congruence|].
  cbn [hd index_at nth_error bind].
  destruct (Nat.eqb_spec (length (p0 :: rest)) 3) as [E3|N3].
  { split; [split|]; [intros (id & msg & H); discriminate | tauto
                     | intros id msg H; discriminate]. }
  destruct (Nat.eqb_spec (length (p0 :: rest)) 2) as [E2|N2].
  { split; [split|]; [intros (id & msg & H); discriminate | tauto
                     | intros id msg H; discriminate]. }
  destruct (_ || _).
  - split; [split|].
    + destruct (slice_from _ _); cbn [bind]; intros (id & msg & H); discriminate.
    + intros (_ & _ & H). discriminate.
    + destruct (slice_from _ _); cbn [bind]; intros id msg H; discriminate.
  - split; [split|].
    + auto.
    + intros _. eauto.
    + intros id msg [= <- <-]. auto.
Qed.

Lemma NormalizeRepos_error_iff_witness :
  exists id msg, NormalizeRepos unix (str "a/b/c/d") = Ret (id, errors_New msg).
Proof.
  apply (NormalizeRepos_error_iff unix (str "a/b/c/d")).
  repeat split; discriminate.
Defined.

(** X15.  [NormalizeRepos] does not tell separators from slashes: an input
    and the same input with its separators turned to slashes have the same
    result. *)
Theorem NormalizeRepos_ToSlash (P : Platform) (raw : gostring) :
  NormalizeRepos P (filepath.ToSlash P raw) = NormalizeRepos P raw.
Proof.
  unfold NormalizeRepos. cbv zeta. rewrite ToSlash_idempotent. reflexivity.
Qed.

(** X16.  Normalizing the clone URL of a normal form gives what normalizing
    the normal form gives: the same identifier, less a trailing [.git] that
    it still has. *)
Theorem NormalizeRepos_CloneURL (P : Platform) (raw : gostring) (id : ReposPath) :
  NormalizeRepos P raw = Ret (id, nil_error) ->
  NormalizeRepos P (CloneURL P id)
  = Ret (strings.TrimSuffix id (str ".git"), nil_error)
  /\ (strings.HasSuffix id (str ".git") = false ->
      NormalizeRepos P (CloneURL P id) = Ret (id, nil_error)).
Proof.
  intros H. apply NormalizeRepos_Ret_segments in H.
  destruct H as (a & b & c & Hid & Hsplit & Hsl & _).
  set (c' := strings.TrimSuffix c (str ".git")) in *.
  assert (Hseg : forall x, In x [a; b; c'] -> component P x).
  { intros x Hx. apply component_of_segment.
    - apply (slashed_segment P id); [exact Hsl | rewrite Hsplit; exact Hx].
    - apply (Split_segment_no_sep "/" id). rewrite Hsplit. exact Hx. }
  assert (E : NormalizeRepos P (CloneURL P id)
              = Ret (strings.TrimSuffix id (str ".git"), nil_error)).
  { assert (Et : strings.TrimSuffix id (str ".git")
                 = a ++ "/"%char :: b ++ "/"%char
                     :: strings.TrimSuffix c' (str ".git")).
    { rewrite Hid.
      change (a ++ "/"%char :: b ++ "/"%char :: c')
        with (a ++ ("/"%char :: b) ++ "/"%char :: c').
      rewrite app_assoc, TrimSuffix_last_segment by apply git_no_slash.
      rewrite <- app_assoc. reflexivity. }
    rewrite Et. unfold CloneURL, ReposPath_String.
    rewrite (slashed_ToSlash _ _ Hsl). rewrite Hid.
    change (str "https://" ++ a ++ "/"%char :: b ++ "/"%char :: c')
      with (str "https" ++ str "://" ++ a ++ str "/" ++ b ++ str "/" ++ c').
    rewrite NormalizeRepos_of_url_segments;
      [reflexivity | simpl; auto | apply Hseg; simpl; auto..]. }
  split; [exact E|]. intros Hno. rewrite E.
  unfold strings.TrimSuffix. rewrite Hno. reflexivity.
Qed.

Lemma NormalizeRepos_CloneURL_witness :
  NormalizeRepos unix (CloneURL unix (str "github.com/tyru/caw.vim"))
  = Ret (str "github.com/tyru/caw.vim", nil_error).
Proof.
  apply (NormalizeRepos_CloneURL unix (str "tyru/caw.vim")
           (str "github.com/tyru/caw.vim")); reflexivity.
Defined.

(** X17.  [NormalizeLocalRepos] never panics: the inputs on which
    [NormalizeRepos] panics have no slash and are taken as local names. *)
Theorem NormalizeLocalRepos_never_panics (P : Platform) (name : gostring) :
  exists result, NormalizeLocalRepos P name = Ret result.
Proof.
  unfold NormalizeLocalRepos. change (str "/") with ["/"%char].
  destruct (strings.Contains name ["/"%char]) eqn:E; cbn [negb]; [|eauto].
  apply Contains_byte in E.
  destruct (NormalizeRepos_outcome P name) as [[Htok _]|[[id H]|H]]; eauto.
  exfalso. simpl in Htok.
  destruct Htok as [<-|[<-|[<-|[]]]]; simpl in E; intuition discriminate.
Qed.

(** X18.  A local name without slash or separator gets an identifier of
    three segments, [localhost], [local] and the name, that [NormalizeRepos]
    accepts; [NormalizeRepos] removes a trailing [.git] of the name, which
    [NormalizeLocalRepos] keeps. *)
Theorem NormalizeLocalRepos_then_NormalizeRepos (P : Platform) (name : gostring) :
  component P name ->
  NormalizeLocalRepos P name = Ret (str "localhost/local/" ++ name, nil_error)
  /\ strings.Split (str "localhost/local/" ++ name) "/"
     = [str "localhost"; str "local"; name]
  /\ NormalizeRepos P (str "localhost/local/" ++ name)
     = Ret (str "localhost/local/" ++ strings.TrimSuffix name (str ".git"),
            nil_error).
Proof.
  intros Hname.
  assert (Hl : forall x, In x [str "localhost"; str "local"] -> component P x).
  { intros x Hx. apply component_of_segment.
    - apply no_backslash_slashed. simpl in Hx.
      destruct Hx as [<-|[<-|[]]]; reflexivity.
    - simpl in Hx. destruct Hx as [<-|[<-|[]]]; simpl; intuition discriminate. }
  split; [|split].
  - unfold NormalizeLocalRepos. change (str "/") with ["/"%char].
    destruct Hname as [Hno _]. apply Contains_byte_false in Hno. rewrite Hno.
    reflexivity.
  - change (str "localhost/local/" ++ name)
      with (str "localhost" ++ "/"%char :: str "local" ++ "/"%char :: name).
    rewrite !Split_app, (Split_no_sep "/" name) by apply Hname. reflexivity.
  - apply (NormalizeRepos_of_host_segments P (str "localhost") (str "local") name);
      auto; apply Hl; simpl; auto.
Qed.

Lemma NormalizeLocalRepos_then_NormalizeRepos_witness :
  NormalizeRepos unix (str "localhost/local/" ++ str "myplugin.git")
  = Ret (str "localhost/local/" ++ strings.TrimSuffix (str "myplugin.git") (str ".git"),
         nil_error).
Proof.
  apply (NormalizeLocalRepos_then_NormalizeRepos unix (str "myplugin.git")).
  unfold component. simpl. intuition discriminate.
Defined.

Lemma TrimSuffix_three_segments (a b c : gostring) :
  strings.TrimSuffix (a ++ "/"%char :: b ++ "/"%char :: c) (str ".git")
  = a ++ "/"%char :: b ++ "/"%char :: strings.TrimSuffix c (str ".git").
Proof.
  change (a ++ "/"%char :: b ++ "/"%char :: c)
    with (a ++ ("/"%char :: b) ++ "/"%char :: c).
  rewrite app_assoc, TrimSuffix_last_segment by apply git_no_slash.
  rewrite <- app_assoc. reflexivity.
Qed.

(** X19.  After a scheme token, whatever the number of segments, only the
    last three are kept (and one [.git] removed): a host is lost when the
    path below it has more than two segments. *)
Theorem NormalizeRepos_scheme_keeps_last_three (P : Platform)
    (tok : gostring) (middle : list gostring) (a b c : gostring) :
  In tok scheme_tokens -> Forall (component P) middle ->
  component P a -> component P b -> component P c ->
  NormalizeRepos P (strings.Join (tok :: middle ++ [a; b; c]) (str "/"))
  = Ret (a ++ str "/" ++ b ++ str "/" ++ strings.TrimSuffix c (str ".git"),
         nil_error).
Proof.
  intros Htok Hmid Ha Hb Hc. change (str "/") with ["/"%char].
  set (l := tok :: middle ++ [a; b; c]).
  assert (Hl : Forall (component P) l).
  { constructor; [apply scheme_token_component, Htok|].
    apply Forall_app. split; [exact Hmid|].
    constructor; [exact Ha|]. constructor; [exact Hb|].
    constructor; [exact Hc | constructor]. }
  assert (Hsl : slashed P (strings.Join l ["/"%char])).
  { apply slashed_Join. eapply Forall_impl; [|exact Hl]. apply component_slashed. }
  assert (Hsplit : strings.Split (strings.Join l ["/"%char]) "/" = l).
  { apply Split_Join; [discriminate|].
    eapply Forall_impl; [|exact Hl]. intros x [H _]. exact H. }
  assert (Hlen : length l = S (length middle) + 3).
  { unfold l. cbn [length]. rewrite length_app. simpl. lia. }
  unfold NormalizeRepos. cbv zeta. rewrite (slashed_ToSlash _ _ Hsl), Hsplit.
  replace (length l =? 3) with false by (symmetry; apply Nat.eqb_neq; lia).
  replace (length l =? 2) with false by (symmetry; apply Nat.eqb_neq; lia).
  unfold l at 1. cbn [index_at nth_error bind].
  fold (is_scheme_token tok).
  replace (is_scheme_token tok) with true
    by (symmetry; apply is_scheme_token_In, Htok).
  rewrite slice_from_last3 by lia.
  replace (length l - 3) with (S (length middle)) by lia.
  unfold l. cbn [skipn]. rewrite skipn_app, skipn_all, Nat.sub_diag.
  cbn [bind skipn app strings.Join].
  change (a ++ str "/" ++ b ++ str "/" ++ c)
    with (a ++ "/"%char :: b ++ "/"%char :: c).
  rewrite TrimSuffix_three_segments. reflexivity.
Qed.

Lemma NormalizeRepos_scheme_keeps_last_three_witness :
  NormalizeRepos unix
    (strings.Join (str "https:" :: [[]; str "github.com"]
                     ++ [str "group"; str "owner"; str "name.git"]) (str "/"))
  = Ret (str "group" ++ str "/" ++ str "owner" ++ str "/"
           ++ strings.TrimSuffix (str "name.git") (str ".git"), nil_error).
Proof.
  apply (NormalizeRepos_scheme_keeps_last_three unix (str "https:")
           [[]; str "github.com"] (str "group") (str "owner") (str "name.git")).
  - simpl. auto.
  - repeat constructor; simpl; intuition discriminate.
  - unfold component. simpl. intuition discriminate.
  - unfold component. simpl. intuition discriminate.
  - unfold component. simpl. intuition discriminate.
Defined.

(** ** The list of identifiers *)

Lemma Strings_loop (l : ReposPathList) (n k : nat) (acc : list gostring) :
  k + n <= length l ->
  fold_left (fun result i => result ++ [ReposPath_String (nth i l [])])
            (seq k n) acc
  = acc ++ firstn n (skipn k l).
Proof.
  revert k acc; induction n as [|n IH]; intros k acc H.
  - simpl. symmetry. apply app_nil_r.
  - cbn [seq fold_left]. rewrite IH by lia.
    rewrite (skipn_nth ReposPath [] l k) by lia.
    cbn [firstn]. rewrite <- app_assoc. reflexivity.
Qed.

(** X20.  [Strings] returns the identifiers of the list as strings, as many
    and in the same order. *)
Theorem ReposPathList_Strings_same (l : ReposPathList) :
  ReposPathList_Strings l = l
  /\ length (ReposPathList_Strings l) = length l
  /\ forall i, nth_error (ReposPathList_Strings l) i = nth_error l i.
Proof.
  assert (E : ReposPathList_Strings l = l).
  { unfold ReposPathList_Strings. cbv zeta. rewrite Strings_loop by lia.
    cbn [app skipn]. apply firstn_all. }
  rewrite E. auto.
Qed.

(** ** The deletion loop of the lookups *)

(** X21.  The loop of [LookUpVimrc] and [LookUpGvimrc], on any list of
    paths: every path it keeps is accepted by [Exists], a list of existing
    paths is returned unchanged, and running the loop on its result changes
    nothing. *)
Theorem remove_missing_sound (Lstat : os.FileSystem) (paths : list gostring) :
  Forall (fun p => Exists Lstat p = true) (remove_missing Lstat 0 paths)
  /\ (Forall (fun p => Exists Lstat p = true) paths ->
      remove_missing Lstat 0 paths = paths)
  /\ remove_missing Lstat 0 (remove_missing Lstat 0 paths)
     = remove_missing Lstat 0 paths.
Proof.
  assert (Hkeep : forall l, Forall (fun p => Exists Lstat p = true) l ->
                    filter (Exists Lstat) l = l).
  { induction 1 as [|p l Hp _ IH]; [reflexivity|].
    simpl. rewrite Hp, IH. reflexivity. }
  assert (Hall : forall l, Forall (fun p => Exists Lstat p = true)
                             (filter (Exists Lstat) l)).
  { intros l. apply Forall_forall. intros p Hp.
    apply filter_In in Hp. tauto. }
  rewrite !remove_missing_filter. cbn [firstn skipn app].
  split; [apply Hall|]. split; [apply Hkeep|].
  apply Hkeep, Hall.
Qed.

Lemma remove_missing_sound_witness :
  remove_missing vimrc_only 0 [str "/home/volt/.vim/vimrc"]
  = [str "/home/volt/.vim/vimrc"].
Proof.
  refine (proj1 (proj2 (remove_missing_sound vimrc_only
                          [str "/home/volt/.vim/vimrc"])) _).
  repeat constructor.
Defined.

(** ** Without a home directory *)

(** X22.  Without [$HOME] and [$USERPROFILE], every function of the
    editor's directory panics, whatever [$VOLTPATH] is, while the functions
    of the tool root return a path as soon as [$VOLTPATH] is set. *)
Theorem layout_without_home (P : Platform) (Getenv : os.Environ)
    (id : ReposPath) (profile : gostring) :
  Getenv (str "HOME") = [] -> Getenv (str "USERPROFILE") = [] ->
  (VimDir P Getenv = Panic (PanicString (str "Couldn't look up HOME"))
   /\ VimVoltDir P Getenv = Panic (PanicString (str "Couldn't look up HOME"))
   /\ VimVoltOptDir P Getenv = Panic (PanicString (str "Couldn't look up HOME"))
   /\ VimVoltStartDir P Getenv = Panic (PanicString (str "Couldn't look up HOME"))
   /\ BuildInfoJSON P Getenv = Panic (PanicString (str "Couldn't look up HOME"))
   /\ BundledPlugConf P Getenv = Panic (PanicString (str "Couldn't look up HOME"))
   /\ EncodeReposPath P Getenv id
      = Panic (PanicString (str "Couldn't look up HOME")))
  /\ (Getenv (str "VOLTPATH") <> [] ->
      (exists p, FullReposPath P Getenv id = Ret p)
      /\ (exists p, Plugconf P Getenv id = Ret p)
      /\ (exists p, RCDir P Getenv profile = Ret p)
      /\ (exists p, LockJSON P Getenv = Ret p)
      /\ (exists p, ConfigTOML P Getenv = Ret p)
      /\ (exists p, TrxLock P Getenv = Ret p)
      /\ (exists p, TempDir P Getenv = Ret p)).
Proof.
  intros H1 H2.
  assert (Hhome : HomeDir Getenv = Panic (PanicString (str "Couldn't look up HOME")))
    by (unfold HomeDir; rewrite H1, H2; reflexivity).
  assert (Hvim : VimDir P Getenv = Panic (PanicString (str "Couldn't look up HOME")))
    by (unfold VimDir; rewrite Hhome; destruct (streq _ _); reflexivity).
  split.
  - unfold BundledPlugConf, BuildInfoJSON, VimVoltStartDir, VimVoltDir,
      EncodeReposPath, VimVoltOptDir.
    rewrite Hvim. repeat split.
  - intros Hv. apply streq_neq in Hv.
    unfold FullReposPath, Plugconf, RCDir, LockJSON, ConfigTOML, TrxLock,
      TempDir, VoltPath.
    rewrite Hv. cbn [negb bind]. repeat split; eexists; reflexivity.
Qed.

Lemma layout_without_home_witness :
  VimDir unix voltpath_env = Panic (PanicString (str "Couldn't look up HOME"))
  /\ exists p, LockJSON unix voltpath_env = Ret p.
Proof.
  split.
  - apply (layout_without_home unix voltpath_env [] []); reflexivity.
  - apply (layout_without_home unix voltpath_env [] []);
      try reflexivity. discriminate.
Defined.

(** ** The editor's executable *)

(** With [$VOLT_VIM] set, [VimExecutable] returns it without error and
    without a search in [$PATH]; otherwise the result is that of the search
    for [vim], or [vim.exe] on Windows. *)
Lemma VimExecutable_override (P : Platform) (Getenv : os.Environ)
    (LookPath : gostring -> gostring * error) :
  (Getenv (str "VOLT_VIM") <> [] ->
   VimExecutable P Getenv LookPath = (Getenv (str "VOLT_VIM"), nil_error))
  /\ (Getenv (str "VOLT_VIM") = [] ->
      VimExecutable P Getenv LookPath
      = LookPath (if streq (GOOS P) (str "windows") then str "vim.exe"
                  else str "vim")).
Proof.
  unfold VimExecutable. split; intros H.
  - apply streq_neq in H. rewrite H. reflexivity.
  - rewrite H. reflexivity.
Qed.
